(** * Recursive, length-bounded reduction of documents

    A shallow embedding of
    [libs/langchain/langchain/chains/combine_documents/reduce.py]:
    the greedy partitioner [split_list_of_docs], the collapser
    [collapse_docs] with its metadata merge, the imperative loops
    [ReduceDocumentsChain._collapse] / [_acollapse], the entry points
    [combine_docs] / [acombine_docs] and the declarative [collapse_loop]
    built by [create_collapse_documents_chain].

    Modelling conventions.
    - A Python [dict] is an association list in insertion order whose keys
      are pairwise distinct ([dict_wf]).
    - Metadata values are a small universe of Python values with their
      [str()] rendering.
    - The length function and the model-backed chains are collaborators
      given by interface only.  They are deterministic functions of the
      document list: the extra keyword arguments, which the source forwards
      unchanged to every call, are fixed during one reduction and therefore
      folded into them.  A chain call may raise; the length function
      answers with a number or with [None] and does not raise itself.
    - Code that calls a chain runs in a small monad that carries the
      outcome (returned, raised, or loop budget of the model exhausted) and
      the list of chain invocations made so far.
    - The [while] loops take a bound on the number of rounds; exhausting it
      is the outcome [OutOfFuel], which stands for a loop that is still
      running. *)

From Stdlib Require Import String Ascii ZArith Lia Bool Arith List.
From Stdlib Require Import Decimal DecimalString.
From Stdlib Require Import Permutation.
Import ListNotations.
Open Scope string_scope.
Open Scope list_scope.

Set Implicit Arguments.

(** ** Python values, dictionaries, documents *)

Inductive PyValue : Type :=
| PyStr (s : string)
| PyInt (z : Z)
| PyBool (b : bool)
| PyNone.

(** [str(v)], which is also what the f-string [f"{v}"] renders. *)
Definition py_str (v : PyValue) : string :=
  match v with
  | PyStr s => s
  | PyInt z => NilZero.string_of_int (Z.to_int z)
  | PyBool true => "True"
  | PyBool false => "False"
  | PyNone => "None"
  end.

Definition dict (V : Type) : Type := list (string * V).

Section Dict.
Variable V : Type.

(** [d.get(k)]; [k in d] is [dict_get k d] being [Some _]. *)
Fixpoint dict_get (k : string) (d : dict V) : option V :=
  match d with
  | [] => None
  | (k', v') :: d' => if String.eqb k' k then Some v' else dict_get k d'
  end.

Definition dict_contains (k : string) (d : dict V) : bool :=
  match dict_get k d with Some _ => true | None => false end.

(** [d[k] = v]: an existing key keeps its position, a new key goes last. *)
Fixpoint dict_set (k : string) (v : V) (d : dict V) : dict V :=
  match d with
  | [] => [(k, v)]
  | (k', v') :: d' =>
      if String.eqb k' k then (k', v) :: d' else (k', v') :: dict_set k v d'
  end.

Definition dict_keys (d : dict V) : list string := map fst d.

Fixpoint distinctb (ks : list string) : bool :=
  match ks with
  | [] => true
  | k :: ks' => negb (existsb (String.eqb k) ks') && distinctb ks'
  end.

(** The keys of a dictionary are pairwise distinct. *)
Definition dict_wf (d : dict V) : bool := distinctb (dict_keys d).
End Dict.

Record Document : Type := mkDocument {
  page_content : string;
  metadata : dict PyValue
}.

(** ** Exceptions and results *)

Inductive exn : Type :=
| ValueError (msg : string)
| TypeError
| IndexError
| ChainError (msg : string).

Inductive result (A : Type) : Type :=
| Ok (a : A)
| Raise (e : exn).
Arguments Ok {A} a.
Arguments Raise {A} e.

(** ** Python list slices used by the partitioner *)

(** [l[:-1]] *)
Definition slice_but_last (A : Type) (l : list A) : list A :=
  firstn (length l - 1) l.

(** [l[-1:]] *)
Definition slice_last (A : Type) (l : list A) : list A :=
  skipn (length l - 1) l.

(** ** The partitioner: [split_list_of_docs] (lines 219-248) *)

Definition single_document_msg : string :=
  "A single document was longer than the context length, we cannot handle this.".

(** A length function gives the cost of a group, or [None]; a length
    function that raises on its own account is outside the model. *)
Definition LengthFunc : Type := list Document -> option Z.

(** [_num_tokens > token_max]; comparing [None] with an [int] raises
    [TypeError]. *)
Definition py_gt (num_tokens : option Z) (token_max : Z) : result bool :=
  match num_tokens with
  | Some n => Ok (Z.gtb n token_max)
  | None => Raise TypeError
  end.

(** One iteration of [for doc in docs], on the pair
    [(new_result_doc_list, _sub_result_docs)]. *)
Definition split_step (length_func : LengthFunc) (token_max : Z)
    (st : list (list Document) * list Document) (doc : Document)
  : result (list (list Document) * list Document) :=
  let '(new_result_doc_list, _sub_result_docs) := st in
  let _sub_result_docs := _sub_result_docs ++ [doc] in
  let _num_tokens := length_func _sub_result_docs in
  match py_gt _num_tokens token_max with
  | Raise e => Raise e
  | Ok true =>
      if Nat.eqb (length _sub_result_docs) 1
      then Raise (ValueError single_document_msg)
      else Ok (new_result_doc_list ++ [slice_but_last _sub_result_docs],
               slice_last _sub_result_docs)
  | Ok false => Ok (new_result_doc_list, _sub_result_docs)
  end.

Fixpoint split_loop (length_func : LengthFunc) (token_max : Z)
    (docs : list Document) (st : list (list Document) * list Document)
  : result (list (list Document) * list Document) :=
  match docs with
  | [] => Ok st
  | doc :: rest =>
      match split_step length_func token_max st doc with
      | Ok st' => split_loop length_func token_max rest st'
      | Raise e => Raise e
      end
  end.

Definition split_list_of_docs (docs : list Document)
    (length_func : LengthFunc) (token_max : Z)
  : result (list (list Document)) :=
  match split_loop length_func token_max docs ([], []) with
  | Ok (new_result_doc_list, _sub_result_docs) =>
      Ok (new_result_doc_list ++ [_sub_result_docs])
  | Raise e => Raise e
  end.

(** ** Metadata merge (lines 175-181, repeated at 273-279 and 305-311) *)

(** [{k: str(v) for k, v in items}] *)
Definition stringify_metadata (items : dict PyValue) : dict string :=
  fold_left (fun acc kv => dict_set (fst kv) (py_str (snd kv)) acc) items [].

(** The body of [for k, v in doc.metadata.items()]. *)
Definition merge_item (combined_metadata : dict string)
    (kv : string * PyValue) : dict string :=
  let '(k, v) := kv in
  match dict_get k combined_metadata with
  | Some cur =>
      dict_set k (String.append cur (String.append ", " (py_str v)))
        combined_metadata
  | None => dict_set k (py_str v) combined_metadata
  end.

(** The body of [for doc in docs[1:]]. *)
Definition merge_doc (combined_metadata : dict string) (doc : Document)
  : dict string :=
  fold_left merge_item (metadata doc) combined_metadata.

(** [_combine_metadata]; [docs[0]] raises [IndexError] on the empty list. *)
Definition _combine_metadata (docs : list Document) : result (dict string) :=
  match docs with
  | [] => Raise IndexError
  | doc0 :: rest =>
      let combined_metadata := stringify_metadata (metadata doc0) in
      Ok (fold_left merge_doc rest combined_metadata)
  end.

(** A [Dict[Any, str]] stored as the metadata of a new [Document]. *)
Definition as_metadata (combined_metadata : dict string) : dict PyValue :=
  map (fun kv => (fst kv, PyStr (snd kv))) combined_metadata.

Definition _dict_to_document (content : string) (meta : dict string)
  : Document :=
  mkDocument content (as_metadata meta).

(** [_docs_len] (lines 189-195); [format_documents] comes with the document
    prompt and the separator already bound. *)
Definition _docs_len (docs : list Document) (token_len_func : string -> Z)
    (format_documents : list Document -> string) : Z :=
  token_len_func (format_documents docs).

(** ** Chain invocations as observable events *)

Inductive event : Type :=
| CollapseCall (docs : list Document)
| CombineCall (docs : list Document).

Inductive outcome (A : Type) : Type :=
| Returned (a : A)
| Raised (e : exn)
| OutOfFuel.
Arguments Returned {A} a.
Arguments Raised {A} e.
Arguments OutOfFuel {A}.

Definition M (A : Type) : Type := (outcome A * list event)%type.

Definition ret (A : Type) (a : A) : M A := (Returned a, []).

Definition bind (A B : Type) (m : M A) (f : A -> M B) : M B :=
  match m with
  | (Returned a, t) => let (r, t') := f a in (r, t ++ t')
  | (Raised e, t) => (Raised e, t)
  | (OutOfFuel, t) => (OutOfFuel, t)
  end.

Notation "x <- c ;; k" := (bind c (fun x => k))
  (at level 61, c at next level, right associativity).

(** Pure fallible code inside the monad. *)
Definition lift (A : Type) (r : result A) : M A :=
  match r with
  | Ok a => (Returned a, [])
  | Raise e => (Raised e, [])
  end.

(** A call of a collaborator: the call is recorded, then its result or its
    exception is delivered. *)
Definition call_chain (A : Type) (ev : event) (r : result A) : M A :=
  match r with
  | Ok a => (Returned a, [ev])
  | Raise e => (Raised e, [ev])
  end.

(** ** The collapser: [collapse_docs] / [acollapse_docs] (lines 251-312) *)

Definition collapse_docs (docs : list Document)
    (combine_document_func : list Document -> M string) : M Document :=
  result <- combine_document_func docs ;;
  combined_metadata <- lift (_combine_metadata docs) ;;
  ret (mkDocument result (as_metadata combined_metadata)).

(** [await] is sequencing. *)
Definition acollapse_docs (docs : list Document)
    (combine_document_func : list Document -> M string) : M Document :=
  result <- combine_document_func docs ;;
  combined_metadata <- lift (_combine_metadata docs) ;;
  ret (mkDocument result (as_metadata combined_metadata)).

(** ** The chain interface

    [BaseCombineDocumentsChain] is declared in [combine_documents/base.py];
    only the members used here appear, as the fields of a record. *)
Record BaseCombineDocumentsChain : Type := {
  prompt_length : list Document -> option Z;
  run : list Document -> result string;
  arun : list Document -> result string;
  chain_combine_docs : list Document -> result (string * dict PyValue);
  chain_acombine_docs : list Document -> result (string * dict PyValue)
}.

(** [a or b] on an [Optional[int]]: [None] and [0] are falsy. *)
Definition py_or (a : option Z) (b : Z) : Z :=
  match a with
  | Some t => if Z.eqb t 0 then b else t
  | None => b
  end.

(** [num_tokens is not None and num_tokens > _token_max] *)
Definition while_cond (num_tokens : option Z) (_token_max : Z) : bool :=
  match num_tokens with
  | Some n => Z.gtb n _token_max
  | None => false
  end.

Module ReduceDocumentsChain.

Record t : Type := {
  combine_documents_chain : BaseCombineDocumentsChain;
  collapse_documents_chain : option BaseCombineDocumentsChain;
  token_max : Z
}.

(** The field default [token_max: int = 3000]. *)
Definition make (combine : BaseCombineDocumentsChain)
    (collapse : option BaseCombineDocumentsChain) (tm : option Z) : t :=
  {| combine_documents_chain := combine;
     collapse_documents_chain := collapse;
     token_max := match tm with Some v => v | None => 3000%Z end |}.

Definition _collapse_chain (self : t) : BaseCombineDocumentsChain :=
  match collapse_documents_chain self with
  | Some c => c
  | None => combine_documents_chain self
  end.

Definition self_token_max (self : t) : Z := token_max self.

(** [_token_max = token_max or self.token_max] (lines 482 and 510). *)
Definition _token_max (self : t) (token_max : option Z) : Z :=
  py_or token_max (self_token_max self).

(** The inner [for docs in new_result_doc_list] with its accumulator. *)
Fixpoint _collapse_for (collapse_one : list Document -> M Document)
    (new_result_doc_list : list (list Document))
    (result_docs : list Document) : M (list Document) :=
  match new_result_doc_list with
  | [] => ret result_docs
  | docs :: rest =>
      new_doc <- collapse_one docs ;;
      _collapse_for collapse_one rest (result_docs ++ [new_doc])
  end.

(** The body of the [while] loop up to the new [result_docs]. *)
Definition _collapse_round (length_func : LengthFunc)
    (collapse_one : list Document -> M Document) (_token_max : Z)
    (result_docs : list Document) : M (list Document) :=
  new_result_doc_list <-
    lift (split_list_of_docs result_docs length_func _token_max) ;;
  _collapse_for collapse_one new_result_doc_list [].

(** The [while] loop; [fuel] bounds the number of rounds. *)
Fixpoint _collapse_while (fuel : nat) (length_func : LengthFunc)
    (collapse_one : list Document -> M Document) (_token_max : Z)
    (result_docs : list Document) (num_tokens : option Z)
  : M (list Document) :=
  if while_cond num_tokens _token_max then
    match fuel with
    | O => (OutOfFuel, [])
    | S fuel' =>
        result_docs <-
          _collapse_round length_func collapse_one _token_max result_docs ;;
        let num_tokens := length_func result_docs in
        _collapse_while fuel' length_func collapse_one _token_max
          result_docs num_tokens
    end
  else ret result_docs.

(** The closure [_collapse_docs_func] of [_collapse] (lines 477-480). *)
Definition _collapse_docs_func (self : t) (docs : list Document)
  : M string :=
  call_chain (CollapseCall docs) (run (_collapse_chain self) docs).

(** The closure [_collapse_docs_func] of [_acollapse] (lines 505-508). *)
Definition _acollapse_docs_func (self : t) (docs : list Document)
  : M string :=
  call_chain (CollapseCall docs) (arun (_collapse_chain self) docs).

Definition _collapse (fuel : nat) (self : t) (docs : list Document)
    (token_max : option Z) : M (list Document * dict PyValue) :=
  let result_docs := docs in
  let length_func := prompt_length (combine_documents_chain self) in
  let num_tokens := length_func result_docs in
  let _token_max := _token_max self token_max in
  result_docs <-
    _collapse_while fuel length_func
      (fun docs => collapse_docs docs (_collapse_docs_func self))
      _token_max result_docs num_tokens ;;
  ret (result_docs, @nil (string * PyValue)).

Definition _acollapse (fuel : nat) (self : t) (docs : list Document)
    (token_max : option Z) : M (list Document * dict PyValue) :=
  let result_docs := docs in
  let length_func := prompt_length (combine_documents_chain self) in
  let num_tokens := length_func result_docs in
  let _token_max := _token_max self token_max in
  result_docs <-
    _collapse_while fuel length_func
      (fun docs => acollapse_docs docs (_acollapse_docs_func self))
      _token_max result_docs num_tokens ;;
  ret (result_docs, @nil (string * PyValue)).

Definition combine_docs (fuel : nat) (self : t) (docs : list Document)
    (token_max : option Z) : M (string * dict PyValue) :=
  collapsed <- _collapse fuel self docs token_max ;;
  let result_docs := fst collapsed in
  call_chain (CombineCall result_docs)
    (chain_combine_docs (combine_documents_chain self) result_docs).

Definition acombine_docs (fuel : nat) (self : t) (docs : list Document)
    (token_max : option Z) : M (string * dict PyValue) :=
  collapsed <- _acollapse fuel self docs token_max ;;
  let result_docs := fst collapsed in
  call_chain (CombineCall result_docs)
    (chain_acombine_docs (combine_documents_chain self) result_docs).

End ReduceDocumentsChain.

(** ** The declarative pipeline: [create_collapse_documents_chain]
    (lines 45-167) *)

(** Modelled from the spec: the [Runnable] combinators of [langchain_core]
    ([pipe], [map], [RunnableParallel], [assign] and a [RunnableLambda] that
    returns a further [Runnable]) are not part of the sources at hand.
    Following sections 4.4 and 5 of the specification, [pipe] is sequential
    composition of stages. *)
Definition runnable_pipe (A B C : Type) (f : A -> M B) (g : B -> M C)
  : A -> M C :=
  fun x => y <- f x ;; g y.

(** Modelled from the spec: sections 2 and 5 let the collapse calls of one
    round run independently, in any order or concurrently, behind a fan-out
    and fan-in.  A scheduler stands for that freedom: it rearranges the
    calls of one [.map()] stage.  It is fair when it only rearranges. *)
Definition schedule : Type := forall A : Type, list A -> list A.

Definition fair (sched : schedule) : Prop :=
  forall (A : Type) (l : list A), Permutation (sched A l) l.

Definition list_order : schedule := fun A l => l.

Definition last_to_first : schedule := fun A l => List.rev l.

(** Modelled from the spec: the fan-in.  The results are joined in list
    order; a stage that did not return ends the join. *)
Fixpoint join_outcomes (B : Type) (rs : list (outcome B))
  : outcome (list B) :=
  match rs with
  | [] => Returned []
  | Returned y :: rest =>
      match join_outcomes rest with
      | Returned ys => Returned (y :: ys)
      | Raised e => Raised e
      | OutOfFuel => OutOfFuel
      end
  | Raised e :: _ => Raised e
  | OutOfFuel :: _ => OutOfFuel
  end.

(** Modelled from the spec: [.map()] starts the stage on every element of
    the list; the calls are made in the order the scheduler picks and the
    results come back in list order. *)
Definition runnable_map (A B : Type) (sched : schedule) (f : A -> M B)
    (xs : list A) : M (list B) :=
  let runs := map f xs in
  (join_outcomes (map fst runs), concat (sched _ (map snd runs))).

(** Modelled from the spec: [RunnableParallel(a=f, b=g)] feeds one input to
    both branches, here in the order in which the branches are written, and
    returns both results. *)
Definition runnable_parallel (A B C : Type) (f : A -> M B) (g : A -> M C)
  : A -> M (B * C) :=
  fun x => b <- f x ;; c <- g x ;; ret (b, c).

Section CreateCollapseDocumentsChain.
(** The order in which [.map()] makes the calls of one round. *)
Variable sched : schedule.
(** [format_document_inputs | prompt | llm | StrOutputParser()] on a list
    of documents: the model-backed capability. *)
Variable llm : list Document -> result string.
(** [format_documents] with [_document_prompt] and [document_separator]. *)
Variable format_documents : list Document -> string.
Variable _token_len_func : string -> Z.
Variable token_max : Z.

Definition reduce_content (docs : list Document) : M string :=
  call_chain (CollapseCall docs) (llm docs).

Definition reduce_docs : list Document -> M Document :=
  runnable_pipe
    (runnable_parallel reduce_content
       (fun docs => lift (_combine_metadata docs)))
    (fun d => ret (_dict_to_document (fst d) (snd d))).

(** The other keys of [inputs] travel along unchanged and are folded into
    the capabilities, so a partition is the list under [DOCUMENTS_KEY]. *)
Definition partition_docs (docs : list Document)
  : M (list (list Document)) :=
  let partitions :=
    split_list_of_docs docs
      (fun ds => Some (_docs_len ds _token_len_func format_documents))
      token_max in
  lift partitions.

Definition partition_and_reduce : list Document -> M (list Document) :=
  runnable_pipe partition_docs (runnable_map sched reduce_docs).

(** [collapse_loop]: when over budget the returned [Runnable] is run on
    the same input, that is one [partition_and_reduce] piped into
    [collapse_loop] again; [fuel] bounds the number of such steps. *)
Fixpoint collapse_loop (fuel : nat) (docs : list Document)
  : M (list Document) :=
  let curr_len := _docs_len docs _token_len_func format_documents in
  if Z.gtb curr_len token_max then
    match fuel with
    | O => (OutOfFuel, [])
    | S fuel' =>
        runnable_pipe partition_and_reduce (collapse_loop fuel') docs
    end
  else ret docs.
End CreateCollapseDocumentsChain.

(** ** The merge rule in the words of the specification, key by key

    Start from the first document's value for the key, stringified; every
    later document that has the key appends [", " + stringify(value)] to
    the string so far, or inserts [stringify(value)] when there is none. *)
Definition spec_merge_step (k : string) (acc : option string)
    (doc : Document) : option string :=
  match dict_get k (metadata doc) with
  | None => acc
  | Some v =>
      match acc with
      | Some s => Some (String.append s (String.append ", " (py_str v)))
      | None => Some (py_str v)
      end
  end.

Definition spec_merged_value (k : string) (docs : list Document)
  : option string :=
  match docs with
  | [] => None
  | doc0 :: rest =>
      fold_left (spec_merge_step k) rest
        (option_map py_str (dict_get k (metadata doc0)))
  end.

(** ** Working lists reachable by completed rounds of the loop *)

Definition over_budget (length_func : LengthFunc) (budget : Z)
    (w : list Document) : bool :=
  while_cond (length_func w) budget.

Inductive reachable (length_func : LengthFunc)
    (collapse_one : list Document -> M Document) (budget : Z)
    (docs : list Document) : list Document -> Prop :=
| reach_start : reachable length_func collapse_one budget docs docs
| reach_round : forall w w' tr,
    reachable length_func collapse_one budget docs w ->
    over_budget length_func budget w = true ->
    ReduceDocumentsChain._collapse_round length_func collapse_one budget w
      = (Returned w', tr) ->
    reachable length_func collapse_one budget docs w'.

(** ** Concrete collaborators and documents used in examples *)

(** Cost of a group: the total number of characters of its contents. *)
Fixpoint char_count (docs : list Document) : Z :=
  match docs with
  | [] => 0%Z
  | d :: rest => (Z.of_nat (String.length (page_content d)) + char_count rest)%Z
  end.

Fixpoint join_contents (docs : list Document) : string :=
  match docs with
  | [] => EmptyString
  | d :: rest => String.append (page_content d) (join_contents rest)
  end.

(** A chain that answers with the concatenated contents of its input. *)
Definition echo_chain : BaseCombineDocumentsChain :=
  {| prompt_length := fun docs => Some (char_count docs);
     run := fun docs => Ok (join_contents docs);
     arun := fun docs => Ok (join_contents docs);
     chain_combine_docs := fun docs => Ok (join_contents docs, []);
     chain_acombine_docs := fun docs => Ok (join_contents docs, []) |}.

(** A chain that answers with the empty string. *)
Definition blank_chain : BaseCombineDocumentsChain :=
  {| prompt_length := fun docs => Some (char_count docs);
     run := fun _ => Ok EmptyString;
     arun := fun _ => Ok EmptyString;
     chain_combine_docs := fun docs => Ok (join_contents docs, []);
     chain_acombine_docs := fun docs => Ok (join_contents docs, []) |}.

(** A chain whose length function has no answer. *)
Definition silent_chain : BaseCombineDocumentsChain :=
  {| prompt_length := fun _ => None;
     run := fun docs => Ok (join_contents docs);
     arun := fun docs => Ok (join_contents docs);
     chain_combine_docs := fun docs => Ok (join_contents docs, []);
     chain_acombine_docs := fun docs => Ok (join_contents docs, []) |}.

Definition echo_reducer : ReduceDocumentsChain.t :=
  ReduceDocumentsChain.make echo_chain None None.

Definition blank_reducer : ReduceDocumentsChain.t :=
  ReduceDocumentsChain.make blank_chain None None.

Definition silent_reducer : ReduceDocumentsChain.t :=
  ReduceDocumentsChain.make silent_chain None None.

Definition doc_small : Document := mkDocument "abc" [].
Definition doc_big : Document := mkDocument "0123456789" [].
Definition doc_big' : Document := mkDocument "9876543210" [].
Definition doc_a : Document := mkDocument "aaaaa" [].
Definition doc_b : Document := mkDocument "bbbbb" [].
Definition doc_src1 : Document :=
  mkDocument "one" [("source", PyStr "a.txt"); ("page", PyInt 1)].
Definition doc_src2 : Document :=
  mkDocument "two" [("page", PyInt 2); ("draft", PyBool true)].
Definition doc_src3 : Document :=
  mkDocument "three" [("source", PyStr "c.txt"); ("page", PyNone)].

(** ** Budget respect

    A group is within budget when the length function answers with a number
    that does not exceed it. *)
Definition within_budget (f : LengthFunc) (tm : Z) (g : list Document)
  : Prop :=
  exists n, f g = Some n /\ (n <= tm)%Z.

(** The two arguments with which [_collapse] enters its loop. *)
Definition length_func_of (self : ReduceDocumentsChain.t) : LengthFunc :=
  prompt_length (ReduceDocumentsChain.combine_documents_chain self).

Definition collapse_one_of (self : ReduceDocumentsChain.t)
  : list Document -> M Document :=
  fun docs =>
    collapse_docs docs (ReduceDocumentsChain._collapse_docs_func self).

(** A chain that measures the formatted text, as [_docs_len] does, and
    answers with the empty string. *)
Definition text_length (s : string) : Z := Z.of_nat (String.length s).

Definition measured_chain : BaseCombineDocumentsChain :=
  {| prompt_length := fun docs =>
       Some (_docs_len docs text_length join_contents);
     run := fun _ => Ok EmptyString;
     arun := fun _ => Ok EmptyString;
     chain_combine_docs := fun docs => Ok (join_contents docs, []);
     chain_acombine_docs := fun docs => Ok (join_contents docs, []) |}.

Definition measured_reducer : ReduceDocumentsChain.t :=
  ReduceDocumentsChain.make measured_chain None None.

(** ** Greedy boundaries

    Between two consecutive groups the partitioner closed the first one
    because adding the first document of the second one went over the
    budget. *)
Definition overflows_into (f : LengthFunc) (tm : Z)
    (g g' : list Document) : Prop :=
  exists d rest n,
    g' = d :: rest /\ f (g ++ [d]) = Some n /\ (n > tm)%Z.

Fixpoint adjacent_overflow (f : LengthFunc) (tm : Z)
    (gs : list (list Document)) : Prop :=
  match gs with
  | g :: ((g' :: _) as tl) =>
      overflows_into f tm g g' /\ adjacent_overflow f tm tl
  | _ => True
  end.

(** A length function that can measure one document at a time only. *)
Definition lone_length : LengthFunc :=
  fun ds => match ds with
            | [_] => Some 1%Z
            | _ => None
            end.

(** ** Joining merged values

    Two optional strings joined the way the merge joins a value to the
    string so far. *)
Definition opt_join (a b : option string) : option string :=
  match b with
  | None => a
  | Some s2 =>
      match a with
      | Some s1 => Some (String.append s1 (String.append ", " s2))
      | None => Some s2
      end
  end.

(** The merged value of a key over a list of documents, read left to
    right, with nothing to start from. *)
Definition merged_from_scratch (k : string) (docs : list Document)
  : option string :=
  fold_left (spec_merge_step k) docs None.

(** [d] is what collapsing [g] with the chain [c] returns. *)
Definition collapsed_from (c : BaseCombineDocumentsChain)
    (g : list Document) (d : Document) : Prop :=
  exists s m,
    run c g = Ok s /\ _combine_metadata g = Ok m /\
    d = mkDocument s (as_metadata m).

Definition doc_merged : Document :=
  mkDocument "summary"
    (as_metadata [("source", "a.txt, c.txt"); ("page", "1, 2, None")]).

Definition doc_first_two : Document :=
  mkDocument "first two"
    (as_metadata [("source", "a.txt"); ("page", "1, 2"); ("draft", "True")]).

Definition doc_third : Document :=
  mkDocument "third" (as_metadata [("source", "c.txt"); ("page", "None")]).

(** A chain whose bare prompt already costs 100 and which answers with the
    concatenated contents. *)
Definition wordy_chain : BaseCombineDocumentsChain :=
  {| prompt_length := fun docs => Some (100 + char_count docs)%Z;
     run := fun docs => Ok (join_contents docs);
     arun := fun docs => Ok (join_contents docs);
     chain_combine_docs := fun docs => Ok (join_contents docs, []);
     chain_acombine_docs := fun docs => Ok (join_contents docs, []) |}.

Definition wordy_reducer : ReduceDocumentsChain.t :=
  ReduceDocumentsChain.make wordy_chain None None.

(** A chain that fails on any group holding the ten-character document
    and answers with the empty string otherwise. *)
Definition picky_run (docs : list Document) : result string :=
  if existsb (fun d => String.eqb (page_content d) "0123456789") docs
  then Raise (ChainError "refused")
  else Ok EmptyString.

Definition picky_chain : BaseCombineDocumentsChain :=
  {| prompt_length := fun docs => Some (char_count docs);
     run := picky_run;
     arun := picky_run;
     chain_combine_docs := fun docs => Ok (join_contents docs, []);
     chain_acombine_docs := fun docs => Ok (join_contents docs, []) |}.

Definition picky_reducer : ReduceDocumentsChain.t :=
  ReduceDocumentsChain.make picky_chain None None.

(** The stringified values that the documents of a list hold for a key,
    in document order. *)
Definition metadata_values (k : string) (docs : list Document)
  : list string :=
  flat_map (fun d => match dict_get k (metadata d) with
                     | Some v => [py_str v]
                     | None => []
                     end) docs.

Definition joined (vs : list string) : option string :=
  match vs with
  | [] => None
  | _ => Some (String.concat ", " vs)
  end.

(** ** Comparing two runs

    Two outcomes are of the same kind, and related by [R] when both are
    results. *)
Definition same_result (A B : Type) (R : A -> B -> Prop)
    (a : outcome A) (b : outcome B) : Prop :=
  match a, b with
  | Returned x, Returned y => R x y
  | Raised _, Raised _ => True
  | OutOfFuel, OutOfFuel => True
  | _, _ => False
  end.

(** Two lists of chain calls are made of the same rounds: the first one is,
    round after round, the collapse calls on the groups of a partition in
    group order, and the second one has in each round the same calls in
    some order. *)
Definition rounds_permuted (f : LengthFunc) (tm : Z)
    (t t' : list event) : Prop :=
  exists (rounds : list (list (list Document)))
         (rounds' : list (list event)),
    t = concat (map (map CollapseCall) rounds) /\
    t' = concat rounds' /\
    Forall2 (fun groups r' =>
               split_list_of_docs (concat groups) f tm = Ok groups /\
               Permutation (map CollapseCall groups) r')
            rounds rounds'.

(** * Properties *)

Unset Implicit Arguments.

(** ** The partitioner *)

Lemma slice_split (A : Type) (l : list A) :
  slice_but_last l ++ slice_last l = l.
Proof. unfold slice_but_last, slice_last. apply firstn_skipn. Qed.

Lemma slice_last_snoc (A : Type) (l : list A) (x : A) :
  slice_last (l ++ [x]) = [x].
Proof.
  unfold slice_last. rewrite length_app. simpl.
  replace (length l + 1 - 1) with (length l + 0) by lia.
  rewrite skipn_app, Nat.add_0_r, skipn_all, Nat.sub_diag. reflexivity.
Qed.

Lemma slice_but_last_snoc (A : Type) (l : list A) (x : A) :
  slice_but_last (l ++ [x]) = l.
Proof.
  unfold slice_but_last. rewrite length_app. simpl.
  replace (length l + 1 - 1) with (length l) by lia.
  rewrite firstn_app, firstn_all, Nat.sub_diag. simpl. apply app_nil_r.
Qed.

(** What one iteration of the partitioner does, case by case. *)
Lemma split_step_cases (f : LengthFunc) (tm : Z) nl sub doc st' :
  split_step f tm (nl, sub) doc = Ok st' ->
  (st' = (nl, sub ++ [doc]) /\
   exists n, f (sub ++ [doc]) = Some n /\ (n <= tm)%Z) \/
  (st' = (nl ++ [sub], [doc]) /\ sub <> [] /\
   exists n, f (sub ++ [doc]) = Some n /\ (n > tm)%Z).
Proof.
  unfold split_step, py_gt.
  destruct (f (sub ++ [doc])) as [n|] eqn:Hf; [|discriminate].
  destruct (Z.gtb n tm) eqn:Hgt.
  - destruct (Nat.eqb (length (sub ++ [doc])) 1) eqn:Hlen; [discriminate|].
    intros H. injection H as H. subst st'. right.
    rewrite slice_but_last_snoc, slice_last_snoc.
    split; [reflexivity|]. split.
    + intros ->. simpl in Hlen. discriminate.
    + exists n. split; [reflexivity|]. apply Z.gtb_gt in Hgt. lia.
  - intros H. injection H as H. subst st'. left. split; [reflexivity|].
    exists n. split; [reflexivity|].
    rewrite Z.gtb_ltb in Hgt. apply Z.ltb_ge in Hgt. exact Hgt.
Qed.

(** The loop keeps the documents seen so far, in order, spread over the
    closed groups and the accumulating group. *)
Lemma split_loop_concat (f : LengthFunc) (tm : Z) docs :
  forall nl sub nl' sub',
    split_loop f tm docs (nl, sub) = Ok (nl', sub') ->
    concat nl' ++ sub' = concat nl ++ sub ++ docs.
Proof.
  induction docs as [|doc rest IH]; intros nl sub nl' sub' H; cbn [split_loop] in H.
  - injection H as <- <-. now rewrite app_nil_r.
  - destruct (split_step f tm (nl, sub) doc) as [st'|e] eqn:Hs; [|discriminate].
    destruct st' as [nl1 sub1].
    apply IH in H. rewrite H.
    apply split_step_cases in Hs.
    destruct Hs as [[E _]|[E _]]; injection E as -> ->.
    + now rewrite <- !app_assoc.
    + rewrite concat_app. simpl. now rewrite app_nil_r, <- !app_assoc.
Qed.

(** Closed groups are never empty, and the accumulating group is empty only
    before the first document. *)
Lemma split_loop_nonempty (f : LengthFunc) (tm : Z) docs :
  forall nl sub nl' sub',
    split_loop f tm docs (nl, sub) = Ok (nl', sub') ->
    Forall (fun g => g <> []) nl ->
    Forall (fun g => g <> []) nl' /\ (sub' = [] -> sub = [] /\ docs = []).
Proof.
  induction docs as [|doc rest IH]; intros nl sub nl' sub' H Hnl; cbn [split_loop] in H.
  - injection H as <- <-. auto.
  - destruct (split_step f tm (nl, sub) doc) as [st'|e] eqn:Hs; [|discriminate].
    destruct st' as [nl1 sub1].
    apply split_step_cases in Hs.
    destruct Hs as [[E _]|[E [Hne _]]]; injection E as -> ->.
    + apply IH in H; [|assumption]. destruct H as [H1 H2]. split; [assumption|].
      intros E. apply H2 in E. destruct E as [E _].
      now destruct sub.
    + apply IH in H.
      * destruct H as [H1 H2]. split; [assumption|].
        intros E. apply H2 in E. destruct E as [E _]. discriminate.
      * apply Forall_app. split; [assumption|]. constructor; auto.
Qed.

Lemma split_list_of_docs_inv docs (f : LengthFunc) (tm : Z) gs :
  split_list_of_docs docs f tm = Ok gs ->
  exists nl sub,
    split_loop f tm docs ([], []) = Ok (nl, sub) /\ gs = nl ++ [sub].
Proof.
  unfold split_list_of_docs.
  destruct (split_loop f tm docs ([], [])) as [[nl sub]|e]; [|discriminate].
  intros H. injection H as <-. eauto.
Qed.

Lemma split_concat docs (f : LengthFunc) (tm : Z) gs :
  split_list_of_docs docs f tm = Ok gs -> concat gs = docs.
Proof.
  intros H. apply split_list_of_docs_inv in H.
  destruct H as (nl & sub & Hl & ->).
  apply split_loop_concat in Hl. simpl in Hl.
  rewrite concat_app. simpl. now rewrite app_nil_r.
Qed.

Lemma split_groups_nonempty docs (f : LengthFunc) (tm : Z) gs :
  split_list_of_docs docs f tm = Ok gs -> docs <> [] ->
  Forall (fun g => g <> []) gs.
Proof.
  intros H Hd. apply split_list_of_docs_inv in H.
  destruct H as (nl & sub & Hl & ->).
  apply split_loop_nonempty in Hl; [|constructor].
  destruct Hl as [H1 H2]. apply Forall_app. split; [assumption|].
  constructor; [|constructor]. intros E. apply H2 in E. now destruct E.
Qed.

(** C1: whenever the partitioner returns groups, their concatenation in
    order is the input list itself, so the groups are contiguous,
    order-preserving and non-overlapping and no document is lost, reordered
    or duplicated; apart from the single empty group of the empty input no
    group is empty. *)
Theorem split_list_of_docs_partition :
  forall (docs : list Document) (length_func : LengthFunc) (token_max : Z)
         (groups : list (list Document)),
    split_list_of_docs docs length_func token_max = Ok groups ->
    concat groups = docs /\
    (docs <> [] -> Forall (fun g => g <> []) groups).
Proof.
  intros docs f tm gs H. split.
  - eapply split_concat; eassumption.
  - intros Hd. eapply split_groups_nonempty; eassumption.
Qed.

Lemma split_list_of_docs_partition_witness :
  split_list_of_docs [doc_a; doc_b; doc_small; doc_small; doc_a]
    (fun ds => Some (char_count ds)) 7
  = Ok [[doc_a]; [doc_b]; [doc_small; doc_small]; [doc_a]] /\
  concat [[doc_a]; [doc_b]; [doc_small; doc_small]; [doc_a]]
  = [doc_a; doc_b; doc_small; doc_small; doc_a].
Proof.
  split; [reflexivity|].
  apply (split_list_of_docs_partition
           [doc_a; doc_b; doc_small; doc_small; doc_a]
           (fun ds => Some (char_count ds)) 7).
  reflexivity.
Defined.

(** C8: once the loop over the documents is done, the accumulating group is
    appended as the last partition whatever it holds; it is empty exactly
    for the empty input, on which the partitioner returns one empty
    group. *)
Theorem split_list_of_docs_emits_final_group :
  (forall (length_func : LengthFunc) (token_max : Z),
      split_list_of_docs [] length_func token_max = Ok [[]]) /\
  (forall (docs : list Document) (length_func : LengthFunc) (token_max : Z)
          (closed : list (list Document)) (acc : list Document),
      split_loop length_func token_max docs ([], []) = Ok (closed, acc) ->
      split_list_of_docs docs length_func token_max = Ok (closed ++ [acc]) /\
      last (closed ++ [acc]) [] = acc /\
      (acc = [] <-> docs = [])).
Proof.
  split.
  - reflexivity.
  - intros docs f tm closed acc H. split; [|split].
    + unfold split_list_of_docs. now rewrite H.
    + apply last_last.
    + split.
      * intros E. apply split_loop_nonempty in H; [|constructor].
        destruct H as [_ H]. now apply H.
      * intros ->. simpl in H. now injection H as _ <-.
Qed.

Lemma split_list_of_docs_emits_final_group_witness :
  split_list_of_docs [doc_small; doc_big] (fun ds => Some (char_count ds)) 5
  = Ok ([[doc_small]] ++ [[doc_big]]) /\
  last ([[doc_small]] ++ [[doc_big]]) [] = [doc_big] /\
  ([doc_big] = [] <-> [doc_small; doc_big] = []).
Proof.
  apply (proj2 split_list_of_docs_emits_final_group
           [doc_small; doc_big] (fun ds => Some (char_count ds)) 5%Z
           [[doc_small]] [doc_big]).
  reflexivity.
Defined.

(** What the partitioner does guarantee about the budget: when every
    document on its own is within budget, so is every emitted group. *)
Lemma split_loop_within_budget (f : LengthFunc) (tm : Z) docs :
  forall nl sub nl' sub',
    split_loop f tm docs (nl, sub) = Ok (nl', sub') ->
    (forall d, In d docs -> within_budget f tm [d]) ->
    Forall (within_budget f tm) nl ->
    (sub = [] \/ within_budget f tm sub) ->
    Forall (within_budget f tm) nl' /\ (sub' = [] \/ within_budget f tm sub').
Proof.
  induction docs as [|doc rest IH]; intros nl sub nl' sub' H Hd Hnl Hsub;
    cbn [split_loop] in H.
  - injection H as <- <-. auto.
  - destruct (split_step f tm (nl, sub) doc) as [st'|e] eqn:Hs; [|discriminate].
    destruct st' as [nl1 sub1].
    apply split_step_cases in Hs.
    destruct Hs as [[E (n & Hn & Hle)]|[E [Hne _]]]; injection E as -> ->.
    + apply IH in H; auto.
      * intros d Hin. apply Hd. now right.
      * right. exists n. auto.
    + apply IH in H; auto.
      * intros d Hin. apply Hd. now right.
      * apply Forall_app. split; [assumption|]. constructor; [|constructor].
        destruct Hsub as [E|Hw]; [contradiction|assumption].
      * right. apply Hd. now left.
Qed.

Lemma split_groups_within_budget docs (f : LengthFunc) (tm : Z) gs :
  split_list_of_docs docs f tm = Ok gs ->
  docs <> [] ->
  (forall d, In d docs -> within_budget f tm [d]) ->
  Forall (within_budget f tm) gs.
Proof.
  intros H Hne Hd. pose proof H as Hg.
  apply split_groups_nonempty in Hg; [|assumption].
  apply split_list_of_docs_inv in H. destruct H as (nl & sub & Hl & ->).
  apply split_loop_within_budget in Hl; auto.
  destruct Hl as [H1 H2]. apply Forall_app. split; [assumption|].
  constructor; [|constructor].
  destruct H2 as [E|Hw]; [|assumption].
  apply Forall_app in Hg. destruct Hg as [_ Hg].
  inversion Hg; subst. contradiction.
Qed.

(** C2: on the two documents ["abc"] and ["0123456789"] with budget 5 and
    the character count as cost, the partitioner returns normally and its
    second group, the lone ten-character document, costs 10: an over-budget
    group is emitted without any error. *)
Theorem split_list_of_docs_emits_over_budget_group :
  split_list_of_docs [doc_small; doc_big] (fun ds => Some (char_count ds)) 5
  = Ok [[doc_small]; [doc_big]] /\
  char_count [doc_big] = 10%Z /\
  ~ within_budget (fun ds => Some (char_count ds)) 5 [doc_big].
Proof.
  split; [reflexivity|]. split; [reflexivity|].
  intros (n & Hn & Hle). simpl in Hn. injection Hn as <-. lia.
Qed.

(** ** Dictionaries *)

Lemma dict_get_set_same (V : Type) (k : string) (v : V) (d : dict V) :
  dict_get k (dict_set k v d) = Some v.
Proof.
  induction d as [|[k' v'] d IH]; simpl.
  - now rewrite String.eqb_refl.
  - destruct (String.eqb k' k) eqn:E; simpl; rewrite E; auto.
Qed.

Lemma dict_get_set_other (V : Type) (k k0 : string) (v : V) (d : dict V) :
  k <> k0 -> dict_get k0 (dict_set k v d) = dict_get k0 d.
Proof.
  intros Hne. induction d as [|[k' v'] d IH]; simpl.
  - destruct (String.eqb k k0) eqn:E; [|reflexivity].
    apply String.eqb_eq in E. contradiction.
  - destruct (String.eqb k' k) eqn:E; simpl.
    + apply String.eqb_eq in E. subst k'.
      destruct (String.eqb k k0) eqn:E0; [|reflexivity].
      apply String.eqb_eq in E0. contradiction.
    + now rewrite IH.
Qed.

Lemma dict_set_fresh (V : Type) (k : string) (v : V) (d : dict V) :
  dict_get k d = None -> dict_set k v d = d ++ [(k, v)].
Proof.
  induction d as [|[k' v'] d IH]; simpl; [reflexivity|].
  destruct (String.eqb k' k); [discriminate|].
  intros H. now rewrite IH.
Qed.

Lemma dict_get_app (V : Type) (k : string) (d1 d2 : dict V) :
  dict_get k (d1 ++ d2) =
  match dict_get k d1 with Some v => Some v | None => dict_get k d2 end.
Proof.
  induction d1 as [|[k' v'] d1 IH]; simpl; [reflexivity|].
  now destruct (String.eqb k' k).
Qed.

Lemma existsb_eqb_get (V : Type) (k : string) (d : dict V) :
  existsb (String.eqb k) (dict_keys d) = false -> dict_get k d = None.
Proof.
  induction d as [|[k' v'] d IH]; simpl; [reflexivity|].
  intros H. apply orb_false_iff in H. destruct H as [H1 H2].
  rewrite String.eqb_sym, H1. auto.
Qed.

Lemma get_existsb_eqb (V : Type) (k : string) (d : dict V) :
  dict_get k d = None -> existsb (String.eqb k) (dict_keys d) = false.
Proof.
  induction d as [|[k' v'] d IH]; simpl; [reflexivity|].
  rewrite (String.eqb_sym k k').
  destruct (String.eqb k' k); [discriminate|]. auto.
Qed.

Lemma dict_keys_set (V : Type) (k : string) (v : V) (d : dict V) :
  dict_keys (dict_set k v d) =
  match dict_get k d with
  | Some _ => dict_keys d
  | None => dict_keys d ++ [k]
  end.
Proof.
  unfold dict_keys. induction d as [|[k' v'] d IH]; simpl; [reflexivity|].
  destruct (String.eqb k' k) eqn:E; simpl; [reflexivity|].
  rewrite IH. now destruct (dict_get k d).
Qed.

Lemma distinctb_snoc (ks : list string) (k : string) :
  distinctb ks = true -> existsb (String.eqb k) ks = false ->
  distinctb (ks ++ [k]) = true.
Proof.
  induction ks as [|k' ks IH]; simpl; [reflexivity|].
  intros H1 H2. apply andb_true_iff in H1. destruct H1 as [Ha Hb].
  apply orb_false_iff in H2. destruct H2 as [Hc Hd].
  rewrite existsb_app. simpl. rewrite (String.eqb_sym k' k), Hc.
  apply negb_true_iff in Ha. rewrite Ha. simpl. auto.
Qed.

Lemma dict_set_wf (V : Type) (k : string) (v : V) (d : dict V) :
  dict_wf d = true -> dict_wf (dict_set k v d) = true.
Proof.
  unfold dict_wf. rewrite dict_keys_set.
  destruct (dict_get k d) eqn:E; [auto|].
  intros H. apply distinctb_snoc; [assumption|].
  now apply get_existsb_eqb.
Qed.

(** ** The metadata merge *)

Lemma merge_item_wf (acc : dict string) (kv : string * PyValue) :
  dict_wf acc = true -> dict_wf (merge_item acc kv) = true.
Proof.
  destruct kv as [k v]. unfold merge_item.
  destruct (dict_get k acc); apply dict_set_wf.
Qed.

Lemma merge_doc_wf (doc : Document) (acc : dict string) :
  dict_wf acc = true -> dict_wf (merge_doc acc doc) = true.
Proof.
  unfold merge_doc. generalize (metadata doc). intros items. revert acc.
  induction items as [|kv items IH]; simpl; [auto|].
  intros acc H. apply IH. now apply merge_item_wf.
Qed.

Lemma stringify_fold_wf (items : dict PyValue) (acc : dict string) :
  dict_wf acc = true ->
  dict_wf (fold_left (fun a kv => dict_set (fst kv) (py_str (snd kv)) a)
             items acc) = true.
Proof.
  revert acc. induction items as [|kv items IH]; simpl; [auto|].
  intros acc H. apply IH. now apply dict_set_wf.
Qed.

(** The dictionary comprehension on a well-formed dictionary maps [str]
    over the values and keeps keys and order. *)
Lemma stringify_fold_map (items : dict PyValue) :
  dict_wf items = true ->
  forall acc : dict string,
    (forall k, dict_get k items <> None -> dict_get k acc = None) ->
    fold_left (fun a kv => dict_set (fst kv) (py_str (snd kv)) a) items acc
    = acc ++ map (fun kv => (fst kv, py_str (snd kv))) items.
Proof.
  induction items as [|[k v] items IH]; simpl; intros Hwf acc Hd.
  - now rewrite app_nil_r.
  - unfold dict_wf in Hwf. simpl in Hwf.
    apply andb_true_iff in Hwf. destruct Hwf as [Hk Hwf].
    apply negb_true_iff in Hk.
    rewrite dict_set_fresh.
    + rewrite IH; [now rewrite <- app_assoc|exact Hwf|].
      intros k0 Hk0. rewrite dict_get_app. simpl.
      destruct (String.eqb k k0) eqn:E.
      * apply String.eqb_eq in E. subst k0.
        apply existsb_eqb_get in Hk. contradiction.
      * rewrite Hd; [reflexivity|]. now rewrite E.
    + apply Hd. now rewrite String.eqb_refl.
Qed.

Lemma stringify_metadata_map (items : dict PyValue) :
  dict_wf items = true ->
  stringify_metadata items = map (fun kv => (fst kv, py_str (snd kv))) items.
Proof.
  intros H. unfold stringify_metadata.
  rewrite stringify_fold_map; auto.
Qed.

Lemma dict_get_map (A B : Type) (g : A -> B) (k : string) (d : dict A) :
  dict_get k (map (fun kv => (fst kv, g (snd kv))) d)
  = option_map g (dict_get k d).
Proof.
  induction d as [|[k' v'] d IH]; simpl; [reflexivity|].
  now destruct (String.eqb k' k).
Qed.

(** Merging the items of one well-formed dictionary, seen at one key. *)
Lemma merge_items_get (k : string) (items : dict PyValue) :
  dict_wf items = true ->
  forall acc : dict string,
    dict_get k (fold_left merge_item items acc) =
    match dict_get k items with
    | None => dict_get k acc
    | Some v =>
        match dict_get k acc with
        | Some s => Some (String.append s (String.append ", " (py_str v)))
        | None => Some (py_str v)
        end
    end.
Proof.
  induction items as [|[k1 v1] items IH]; intros Hwf acc;
    cbn [fold_left dict_get].
  - reflexivity.
  - unfold dict_wf in Hwf. simpl in Hwf.
    apply andb_true_iff in Hwf. destruct Hwf as [Hk Hwf].
    apply negb_true_iff in Hk.
    rewrite IH by exact Hwf.
    destruct (String.eqb k1 k) eqn:E.
    + apply String.eqb_eq in E. subst k1.
      rewrite (existsb_eqb_get _ _ _ Hk).
      unfold merge_item.
      destruct (dict_get k acc); apply dict_get_set_same.
    + assert (Hne : k1 <> k) by (intros ->; now rewrite String.eqb_refl in E).
      assert (Hacc : dict_get k (merge_item acc (k1, v1)) = dict_get k acc).
      { unfold merge_item.
        destruct (dict_get k1 acc); now apply dict_get_set_other. }
      now rewrite Hacc.
Qed.

Lemma merge_doc_get (k : string) (doc : Document) (acc : dict string) :
  dict_wf (metadata doc) = true ->
  dict_get k (merge_doc acc doc) = spec_merge_step k (dict_get k acc) doc.
Proof.
  intros H. unfold merge_doc, spec_merge_step.
  rewrite merge_items_get by exact H.
  now destruct (dict_get k (metadata doc)).
Qed.

Lemma merge_docs_get (k : string) (rest : list Document) :
  Forall (fun d => dict_wf (metadata d) = true) rest ->
  forall acc : dict string,
    dict_get k (fold_left merge_doc rest acc)
    = fold_left (spec_merge_step k) rest (dict_get k acc).
Proof.
  induction rest as [|d rest IH]; simpl; intros Hwf acc; [reflexivity|].
  inversion Hwf; subst. rewrite IH by assumption.
  now rewrite merge_doc_get.
Qed.

Lemma merge_docs_wf (rest : list Document) (acc : dict string) :
  dict_wf acc = true -> dict_wf (fold_left merge_doc rest acc) = true.
Proof.
  revert acc. induction rest as [|d rest IH]; simpl; [auto|].
  intros acc H. apply IH. now apply merge_doc_wf.
Qed.

(** Once a key has a value, later documents keep it or extend it. *)
Lemma spec_merge_steps_some (k : string) (rest : list Document) :
  forall s, exists s', fold_left (spec_merge_step k) rest (Some s) = Some s'.
Proof.
  induction rest as [|d rest IH]; simpl; intros s; [eauto|].
  unfold spec_merge_step at 2. destruct (dict_get k (metadata d)); apply IH.
Qed.

Lemma spec_merge_step_some (k : string) (s : string) (d : Document) :
  spec_merge_step k (Some s) d <> None.
Proof.
  unfold spec_merge_step. destruct (dict_get k (metadata d)); discriminate.
Qed.

Lemma spec_merge_steps_keep (k : string) (rest : list Document) :
  forall acc : option string,
    acc <> None \/
    (exists d, In d rest /\ dict_get k (metadata d) <> None) ->
    fold_left (spec_merge_step k) rest acc <> None.
Proof.
  induction rest as [|d rest IH]; simpl; intros acc H.
  - destruct H as [H|(d & [] & _)]. exact H.
  - apply IH. destruct H as [H|(d' & [<-|Hin] & Hk)].
    + left. destruct acc as [s|]; [apply spec_merge_step_some|contradiction].
    + left. unfold spec_merge_step.
      destruct (dict_get k (metadata d)); [|contradiction].
      destruct acc; discriminate.
    + right. eauto.
Qed.

Lemma collapse_docs_returns (docs : list Document)
    (f : list Document -> M string) (s : string) (tr : list event)
    (combined : dict string) :
  f docs = (Returned s, tr) ->
  _combine_metadata docs = Ok combined ->
  collapse_docs docs f = (Returned (mkDocument s (as_metadata combined)), tr)
  /\ acollapse_docs docs f
     = (Returned (mkDocument s (as_metadata combined)), tr).
Proof.
  intros Hf Hc. unfold collapse_docs, acollapse_docs, bind, lift, ret.
  rewrite Hf, Hc. simpl. now rewrite app_nil_r.
Qed.

(** C5: for a non-empty group of documents with well-formed metadata the
    merge succeeds; [collapse_docs] and [acollapse_docs] store its result in
    the new document; at every key the merged value is the one the
    specification describes (first document stringified, then one [", "]
    and the stringified value appended per later document holding the key,
    or the stringified value inserted when the key is new); a key of any
    document of the group is a key of the result; appending one more
    document changes a key's value only by that extension, never dropping
    or replacing what was there; and for a group of one document the result
    is that document's metadata with each value stringified, in order. *)
Theorem combine_metadata_merge_rule :
  forall (doc0 : Document) (rest : list Document),
    Forall (fun d => dict_wf (metadata d) = true) (doc0 :: rest) ->
    exists combined : dict string,
      _combine_metadata (doc0 :: rest) = Ok combined /\
      (forall (combine_document_func : list Document -> M string)
              (s : string) (tr : list event),
          combine_document_func (doc0 :: rest) = (Returned s, tr) ->
          collapse_docs (doc0 :: rest) combine_document_func
          = (Returned (mkDocument s (as_metadata combined)), tr) /\
          acollapse_docs (doc0 :: rest) combine_document_func
          = (Returned (mkDocument s (as_metadata combined)), tr)) /\
      dict_wf combined = true /\
      (forall k, dict_get k combined = spec_merged_value k (doc0 :: rest)) /\
      (forall k d, In d (doc0 :: rest) -> dict_get k (metadata d) <> None ->
                   dict_get k combined <> None) /\
      (forall d, dict_wf (metadata d) = true ->
         exists combined',
           _combine_metadata (doc0 :: rest ++ [d]) = Ok combined' /\
           forall k,
             dict_get k combined' =
             match dict_get k (metadata d) with
             | None => dict_get k combined
             | Some v =>
                 match dict_get k combined with
                 | Some s =>
                     Some (String.append s (String.append ", " (py_str v)))
                 | None => Some (py_str v)
                 end
             end) /\
      (rest = [] ->
       combined = map (fun kv => (fst kv, py_str (snd kv))) (metadata doc0)).
Proof.
  intros doc0 rest Hwf. inversion Hwf as [|? ? Hwf0 Hwfr]; subst.
  exists (fold_left merge_doc rest (stringify_metadata (metadata doc0))).
  assert (Hget : forall k,
    dict_get k (fold_left merge_doc rest (stringify_metadata (metadata doc0)))
    = spec_merged_value k (doc0 :: rest)).
  { intros k. rewrite merge_docs_get by assumption. simpl.
    rewrite stringify_metadata_map by assumption.
    now rewrite dict_get_map. }
  split; [reflexivity|]. split; [|split; [|split; [|split; [|split]]]].
  - intros f s tr Hf. now apply collapse_docs_returns.
  - apply merge_docs_wf. unfold stringify_metadata.
    now apply stringify_fold_wf.
  - exact Hget.
  - intros k d Hin Hk. rewrite Hget. simpl.
    apply spec_merge_steps_keep. destruct Hin as [<-|Hin].
    + left. destruct (dict_get k (metadata doc0)); [discriminate|contradiction].
    + right. eauto.
  - intros d Hd. eexists. split; [reflexivity|].
    intros k. rewrite fold_left_app. cbn [fold_left].
    rewrite merge_doc_get by assumption.
    unfold spec_merge_step. reflexivity.
  - intros ->. simpl. now apply stringify_metadata_map.
Qed.

Lemma combine_metadata_merge_rule_witness :
  exists combined : dict string,
    _combine_metadata [doc_src1; doc_src2; doc_src3] = Ok combined /\
    dict_get "source" combined = Some "a.txt, c.txt" /\
    dict_get "page" combined = Some "1, 2, None" /\
    dict_get "draft" combined = Some "True".
Proof.
  destruct (@combine_metadata_merge_rule doc_src1 [doc_src2; doc_src3])
    as (combined & Hc & _ & _ & Hget & _).
  - repeat constructor.
  - exists combined. split; [exact Hc|].
    rewrite !Hget. repeat split; reflexivity.
Defined.

(** ** The reduction driver *)

Import ReduceDocumentsChain.

Lemma _collapse_while_done (fuel : nat) (f : LengthFunc)
    (c : list Document -> M Document) (tm : Z) (w : list Document)
    (nt : option Z) :
  while_cond nt tm = false -> _collapse_while fuel f c tm w nt = ret w.
Proof. intros H. destruct fuel; simpl; now rewrite H. Qed.

Lemma _collapse_while_step (fuel : nat) (f : LengthFunc)
    (c : list Document -> M Document) (tm : Z) (w : list Document)
    (nt : option Z) :
  while_cond nt tm = true ->
  _collapse_while (S fuel) f c tm w nt =
  (w' <- _collapse_round f c tm w ;; _collapse_while fuel f c tm w' (f w')).
Proof. intros H. cbn [_collapse_while]. now rewrite H. Qed.

Lemma while_cond_within (n tm : Z) :
  (n <= tm)%Z -> while_cond (Some n) tm = false.
Proof.
  intros H. unfold while_cond. rewrite Z.gtb_ltb. apply Z.ltb_ge. exact H.
Qed.

Lemma while_cond_over (n tm : Z) :
  (n > tm)%Z -> while_cond (Some n) tm = true.
Proof.
  intros H. unfold while_cond. rewrite Z.gtb_ltb. apply Z.ltb_lt. lia.
Qed.

(** No round is run when the loop condition fails at the start. *)
Lemma no_round_needed (fuel : nat) (self : t) (docs : list Document)
    (token_max : option Z) :
  while_cond (prompt_length (combine_documents_chain self) docs)
    (_token_max self token_max) = false ->
  _collapse fuel self docs token_max = (Returned (docs, []), []) /\
  _acollapse fuel self docs token_max = (Returned (docs, []), []) /\
  combine_docs fuel self docs token_max =
    call_chain (CombineCall docs)
      (chain_combine_docs (combine_documents_chain self) docs) /\
  acombine_docs fuel self docs token_max =
    call_chain (CombineCall docs)
      (chain_acombine_docs (combine_documents_chain self) docs).
Proof.
  intros H.
  assert (H1 : _collapse fuel self docs token_max = (Returned (docs, []), [])).
  { unfold _collapse. now rewrite _collapse_while_done. }
  assert (H2 : _acollapse fuel self docs token_max = (Returned (docs, []), [])).
  { unfold _acollapse. now rewrite _collapse_while_done. }
  repeat split; try assumption.
  - unfold combine_docs. rewrite H1. unfold bind. cbn [fst].
    now destruct (call_chain _ _).
  - unfold acombine_docs. rewrite H2. unfold bind. cbn [fst].
    now destruct (call_chain _ _).
Qed.

Lemma call_chain_trace (A : Type) (ev : event) (r : result A) :
  snd (call_chain ev r) = [ev].
Proof. now destruct r. Qed.

(** C10: when the length function has no answer for the input documents,
    [_collapse] and [_acollapse] run no round, make no chain call and return
    the documents as they are, so [combine_docs] and [acombine_docs] hand
    them straight to the final combine step. *)
Theorem no_length_means_no_collapse :
  forall (fuel : nat) (self : t) (docs : list Document)
         (token_max : option Z),
    prompt_length (combine_documents_chain self) docs = None ->
    _collapse fuel self docs token_max = (Returned (docs, []), []) /\
    _acollapse fuel self docs token_max = (Returned (docs, []), []) /\
    combine_docs fuel self docs token_max =
      call_chain (CombineCall docs)
        (chain_combine_docs (combine_documents_chain self) docs) /\
    acombine_docs fuel self docs token_max =
      call_chain (CombineCall docs)
        (chain_acombine_docs (combine_documents_chain self) docs).
Proof.
  intros fuel self docs tm H. apply no_round_needed. now rewrite H.
Qed.

Lemma no_length_means_no_collapse_witness :
  _collapse 0 silent_reducer [doc_big; doc_big'] (Some 5%Z)
  = (Returned ([doc_big; doc_big'], []), []).
Proof.
  apply (@no_length_means_no_collapse 0 silent_reducer [doc_big; doc_big']
           (Some 5%Z)).
  reflexivity.
Defined.

(** C7: when the cost of the input list is at most the active budget, the
    loop body is not run: [_collapse] makes no chain call and returns the
    documents unchanged, and the only chain call of [combine_docs] is the
    final combine on those very documents, made once; likewise for the
    asynchronous pair. *)
Theorem within_budget_goes_straight_to_final_combine :
  forall (fuel : nat) (self : t) (docs : list Document)
         (token_max : option Z) (n : Z),
    prompt_length (combine_documents_chain self) docs = Some n ->
    (n <= _token_max self token_max)%Z ->
    _collapse fuel self docs token_max = (Returned (docs, []), []) /\
    _acollapse fuel self docs token_max = (Returned (docs, []), []) /\
    combine_docs fuel self docs token_max =
      call_chain (CombineCall docs)
        (chain_combine_docs (combine_documents_chain self) docs) /\
    acombine_docs fuel self docs token_max =
      call_chain (CombineCall docs)
        (chain_acombine_docs (combine_documents_chain self) docs) /\
    snd (combine_docs fuel self docs token_max) = [CombineCall docs] /\
    snd (acombine_docs fuel self docs token_max) = [CombineCall docs].
Proof.
  intros fuel self docs tm n Hn Hle.
  destruct (@no_round_needed fuel self docs tm) as (H1 & H2 & H3 & H4).
  { rewrite Hn. now apply while_cond_within. }
  repeat split; try assumption.
  - rewrite H3. apply call_chain_trace.
  - rewrite H4. apply call_chain_trace.
Qed.

Lemma within_budget_goes_straight_to_final_combine_witness :
  combine_docs 0 echo_reducer [doc_small; doc_a; doc_b] (Some 20%Z)
  = (Returned ("abcaaaaabbbbb", []), [CombineCall [doc_small; doc_a; doc_b]]).
Proof.
  apply (@within_budget_goes_straight_to_final_combine 0 echo_reducer
           [doc_small; doc_a; doc_b] (Some 20%Z) 13%Z).
  - reflexivity.
  - simpl. lia.
Defined.

(** C9: a [token_max] argument of [0] or [None] is falsy, so the budget of
    the loop is the instance's [token_max] field, which is 3000 unless the
    instance was built with another value; the four entry points therefore
    behave on [0] exactly as on [None], and a ten-character document passed
    with [token_max=0] to a default instance is returned without any
    round. *)
Theorem falsy_token_max_uses_instance_default :
  forall self : t,
    _token_max self (Some 0%Z) = token_max self /\
    _token_max self None = token_max self /\
    (forall combine collapse,
        _token_max (make combine collapse None) (Some 0%Z) = 3000%Z /\
        _token_max (make combine collapse None) None = 3000%Z) /\
    (forall fuel docs,
        _collapse fuel self docs (Some 0%Z) =
          (result_docs <-
             _collapse_while fuel
               (prompt_length (combine_documents_chain self))
               (fun g => collapse_docs g (_collapse_docs_func self))
               (token_max self) docs
               (prompt_length (combine_documents_chain self) docs) ;;
           ret (result_docs, [])) /\
        _collapse fuel self docs (Some 0%Z) = _collapse fuel self docs None /\
        _acollapse fuel self docs (Some 0%Z) = _acollapse fuel self docs None /\
        combine_docs fuel self docs (Some 0%Z)
        = combine_docs fuel self docs None /\
        acombine_docs fuel self docs (Some 0%Z)
        = acombine_docs fuel self docs None) /\
    (forall fuel,
        _collapse fuel echo_reducer [doc_big] (Some 0%Z)
        = (Returned ([doc_big], []), [])).
Proof.
  intros self. repeat split.
  intros fuel. apply (@no_round_needed fuel echo_reducer [doc_big] (Some 0%Z)).
  reflexivity.
Qed.

(** ** The fatal single-document check *)

Lemma split_first_too_large (doc : Document) (rest : list Document)
    (f : LengthFunc) (tm n : Z) :
  f [doc] = Some n -> (n > tm)%Z ->
  split_list_of_docs (doc :: rest) f tm
  = Raise (ValueError single_document_msg).
Proof.
  intros Hf Hn. unfold split_list_of_docs. cbn [split_loop].
  unfold split_step. cbv beta zeta iota.
  change (@nil Document ++ [doc]) with [doc]. rewrite Hf. unfold py_gt.
  replace (Z.gtb n tm) with true
    by (symmetry; rewrite Z.gtb_ltb; apply Z.ltb_lt; lia).
  reflexivity.
Qed.

Lemma first_round_raises (fuel : nat) (f : LengthFunc)
    (c : list Document -> M Document) (tm : Z) (doc : Document)
    (rest : list Document) (n m : Z) :
  f [doc] = Some n -> (n > tm)%Z ->
  f (doc :: rest) = Some m -> (m > tm)%Z ->
  _collapse_while (S fuel) f c tm (doc :: rest) (f (doc :: rest))
  = (Raised (ValueError single_document_msg), []).
Proof.
  intros Hn Hgt Hm Hgt'.
  rewrite _collapse_while_step by (rewrite Hm; now apply while_cond_over).
  unfold _collapse_round.
  rewrite (split_first_too_large doc rest f tm n Hn Hgt). reflexivity.
Qed.

(** C4 as the code has it: when the first document of the list alone costs
    more than the active budget and the list as a whole is over budget (for
    a one-document input these are the same condition), the first round
    raises [ValueError] with the fixed message; no chain, neither the
    collapse chain nor the final combine chain, has been called, and the
    exception is the outcome of [_collapse], [_acollapse], [combine_docs]
    and [acombine_docs]. *)
Theorem first_document_too_large_raises :
  forall (fuel : nat) (self : t) (doc : Document) (rest : list Document)
         (token_max : option Z) (n m : Z),
    prompt_length (combine_documents_chain self) [doc] = Some n ->
    (n > _token_max self token_max)%Z ->
    prompt_length (combine_documents_chain self) (doc :: rest) = Some m ->
    (m > _token_max self token_max)%Z ->
    _collapse (S fuel) self (doc :: rest) token_max
    = (Raised (ValueError single_document_msg), []) /\
    _acollapse (S fuel) self (doc :: rest) token_max
    = (Raised (ValueError single_document_msg), []) /\
    combine_docs (S fuel) self (doc :: rest) token_max
    = (Raised (ValueError single_document_msg), []) /\
    acombine_docs (S fuel) self (doc :: rest) token_max
    = (Raised (ValueError single_document_msg), []).
Proof.
  intros fuel self doc rest tm n m Hn Hgt Hm Hgt'.
  assert (H1 : _collapse (S fuel) self (doc :: rest) tm
               = (Raised (ValueError single_document_msg), [])).
  { unfold _collapse.
    now rewrite (first_round_raises fuel _ _ _ doc rest n m Hn Hgt Hm Hgt'). }
  assert (H2 : _acollapse (S fuel) self (doc :: rest) tm
               = (Raised (ValueError single_document_msg), [])).
  { unfold _acollapse.
    now rewrite (first_round_raises fuel _ _ _ doc rest n m Hn Hgt Hm Hgt'). }
  repeat split; try assumption.
  - unfold combine_docs. now rewrite H1.
  - unfold acombine_docs. now rewrite H2.
Qed.

Lemma first_document_too_large_raises_witness :
  combine_docs 1 echo_reducer [doc_big] (Some 5%Z)
  = (Raised (ValueError single_document_msg), []).
Proof.
  apply (@first_document_too_large_raises 0 echo_reducer doc_big []
           (Some 5%Z) 10%Z 10%Z); try reflexivity; simpl; lia.
Defined.

(** C4 as stated fails.  With budget 5 the ten-character document that
    follows a three-character one is never measured alone: both groups are
    collapsed, the final combine runs and the call returns.  And when the
    error is raised it is the same value for different offending documents:
    it carries neither the document nor an index. *)
Lemma oversize_document_can_reach_collapse :
  ~ (forall (fuel : nat) (self : t) (docs : list Document)
            (token_max : option Z) (d : Document) (n : Z),
        In d docs ->
        prompt_length (combine_documents_chain self) [d] = Some n ->
        (n > _token_max self token_max)%Z ->
        exists e,
          combine_docs (S fuel) self docs token_max = (Raised e, [])) /\
  combine_docs 1 blank_reducer [doc_small; doc_big] (Some 5%Z)
  = (Returned (EmptyString, []),
     [CollapseCall [doc_small]; CollapseCall [doc_big];
      CombineCall [mkDocument EmptyString []; mkDocument EmptyString []]]) /\
  doc_big <> doc_big' /\
  _collapse 1 echo_reducer [doc_big] (Some 5%Z)
  = _collapse 1 echo_reducer [doc_big'] (Some 5%Z).
Proof.
  split; [|split; [reflexivity|split; [discriminate|reflexivity]]].
  intros H.
  destruct (H 0 blank_reducer [doc_small; doc_big] (Some 5%Z) doc_big 10%Z)
    as [e He].
  - right. now left.
  - reflexivity.
  - simpl. lia.
  - discriminate He.
Qed.

(** ** Progress and termination of the loop *)

Lemma bind_returned (A B : Type) (m : M A) (k : A -> M B) (b : B)
    (tr : list event) :
  bind m k = (Returned b, tr) ->
  exists a t1 t2, m = (Returned a, t1) /\ k a = (Returned b, t2) /\
                  tr = t1 ++ t2.
Proof.
  unfold bind. destruct m as [[a|e|] t1]; try discriminate.
  destruct (k a) as [r t2] eqn:Hk. intros H. injection H as -> <-.
  exists a, t1, t2. auto.
Qed.

Lemma bind_not_out_of_fuel (A B : Type) (m : M A) (k : A -> M B) :
  fst m <> OutOfFuel ->
  (forall a t, m = (Returned a, t) -> fst (k a) <> OutOfFuel) ->
  fst (bind m k) <> OutOfFuel.
Proof.
  unfold bind. destruct m as [[a|e|] t1]; simpl; intros H1 H2.
  - specialize (H2 a t1 eq_refl). now destruct (k a).
  - discriminate.
  - contradiction.
Qed.

Lemma collapse_docs_returned_nonempty (g : list Document)
    (f : list Document -> M string) (d : Document) (tr : list event) :
  collapse_docs g f = (Returned d, tr) -> g <> [].
Proof.
  intros H ->. unfold collapse_docs in H.
  apply bind_returned in H. destruct H as (s & t1 & t2 & _ & H & _).
  apply bind_returned in H. destruct H as (c & t3 & t4 & H & _).
  discriminate H.
Qed.

Lemma call_chain_not_out_of_fuel (A : Type) (ev : event) (r : result A) :
  fst (call_chain ev r) <> OutOfFuel.
Proof. destruct r; discriminate. Qed.

Lemma lift_not_out_of_fuel (A : Type) (r : result A) :
  fst (lift r) <> OutOfFuel.
Proof. destruct r; discriminate. Qed.

Lemma collapse_docs_not_out_of_fuel (g : list Document)
    (f : list Document -> M string) :
  fst (f g) <> OutOfFuel -> fst (collapse_docs g f) <> OutOfFuel.
Proof.
  intros Hf. unfold collapse_docs.
  apply bind_not_out_of_fuel; [exact Hf|]. intros s t _.
  apply bind_not_out_of_fuel; [apply lift_not_out_of_fuel|].
  intros c t' _. discriminate.
Qed.

Section Rounds.
Variable f : LengthFunc.
Variable c : list Document -> M Document.
Variable tm : Z.
(** The collapser returns only on a non-empty group, and it always
    returns or raises. *)
Hypothesis c_nonempty :
  forall g d tr, c g = (Returned d, tr) -> g <> [].
Hypothesis c_total : forall g, fst (c g) <> OutOfFuel.

Lemma _collapse_for_returned (gs : list (list Document)) :
  forall acc w' tr,
    _collapse_for c gs acc = (Returned w', tr) ->
    Forall (fun g => g <> []) gs /\ length w' = length acc + length gs.
Proof.
  induction gs as [|g gs IH]; intros acc w' tr H; cbn [_collapse_for] in H.
  - injection H as <- _. split; [constructor|simpl; lia].
  - apply bind_returned in H. destruct H as (d & t1 & t2 & Hc & H & _).
    apply IH in H. destruct H as [H1 H2]. split.
    + constructor; [eapply c_nonempty; eassumption|assumption].
    + rewrite H2, length_app. simpl. lia.
Qed.

Lemma _collapse_for_total (gs : list (list Document)) :
  forall acc, fst (_collapse_for c gs acc) <> OutOfFuel.
Proof.
  induction gs as [|g gs IH]; intros acc; cbn [_collapse_for].
  - discriminate.
  - apply bind_not_out_of_fuel; [apply c_total|]. intros d t _. apply IH.
Qed.

Lemma _collapse_round_total (w : list Document) :
  fst (_collapse_round f c tm w) <> OutOfFuel.
Proof.
  unfold _collapse_round.
  apply bind_not_out_of_fuel; [apply lift_not_out_of_fuel|].
  intros gs t _. apply _collapse_for_total.
Qed.

Lemma groups_count (gs : list (list Document)) :
  Forall (fun g => g <> []) gs ->
  length gs <= length (concat gs) /\
  (length gs = length (concat gs) <-> Forall (fun g => length g = 1) gs).
Proof.
  induction gs as [|g gs IH]; intros H.
  - simpl. split; [lia|]. split; constructor.
  - inversion H as [|? ? Hg Hgs]; subst.
    destruct (IH Hgs) as [IH1 IH2].
    assert (Hlen : 1 <= length g) by (destruct g; [contradiction|simpl; lia]).
    simpl. rewrite length_app. split; [lia|]. split.
    + intros E. constructor; [lia|]. apply IH2. lia.
    + intros E. inversion E as [|? ? E1 E2]; subst.
      apply IH2 in E2. lia.
Qed.

(** One completed round: the new list has one document per group, the
    groups partition the old list, none is empty. *)
Lemma _collapse_round_returned (w w' : list Document) (tr : list event) :
  _collapse_round f c tm w = (Returned w', tr) ->
  exists gs,
    split_list_of_docs w f tm = Ok gs /\
    length w' = length gs /\
    1 <= length gs /\
    length gs <= length w /\
    (length gs = length w <-> Forall (fun g => length g = 1) gs).
Proof.
  unfold _collapse_round. intros H.
  apply bind_returned in H. destruct H as (gs & t1 & t2 & Hs & H & _).
  destruct (split_list_of_docs w f tm) as [gs0|e] eqn:Hsplit;
    [|discriminate].
  injection Hs as -> _.
  apply _collapse_for_returned in H. destruct H as [Hne Hlen].
  exists gs. split; [reflexivity|]. split; [simpl in Hlen; lia|].
  pose proof (split_concat _ _ _ _ Hsplit) as Hcat.
  pose proof (groups_count gs Hne) as Hcount. rewrite Hcat in Hcount.
  split; [|exact Hcount].
  apply split_list_of_docs_inv in Hsplit.
  destruct Hsplit as (nl & sub & _ & ->).
  rewrite length_app. simpl. lia.
Qed.

Variable docs : list Document.
(** No completed round leaves the length unchanged and the list still
    over budget. *)
Hypothesis progress :
  forall w w' tr,
    reachable f c tm docs w ->
    over_budget f tm w = true ->
    _collapse_round f c tm w = (Returned w', tr) ->
    length w' = length w ->
    over_budget f tm w' = false.

Lemma _collapse_while_terminates (fuel : nat) :
  forall w,
    reachable f c tm docs w ->
    1 <= fuel -> length w <= fuel ->
    fst (_collapse_while fuel f c tm w (f w)) <> OutOfFuel.
Proof.
  induction fuel as [|fuel IH]; intros w Hr H1 Hlen; [lia|].
  destruct (while_cond (f w) tm) eqn:Hcond.
  - rewrite _collapse_while_step by exact Hcond.
    apply bind_not_out_of_fuel; [apply _collapse_round_total|].
    intros w' t Hround.
    pose proof (_collapse_round_returned _ _ _ Hround)
      as (gs & _ & Hw' & Hpos & Hle & _).
    destruct (Nat.eq_dec (length w') (length w)) as [E|NE].
    + rewrite _collapse_while_done; [discriminate|].
      eapply progress; eassumption.
    + apply IH; [|lia|lia].
      eapply reach_round; eassumption.
  - rewrite _collapse_while_done by exact Hcond. discriminate.
Qed.
End Rounds.

Lemma sync_collapse_nonempty (self : t) :
  forall g d tr, collapse_one_of self g = (Returned d, tr) -> g <> [].
Proof.
  intros g d tr H. unfold collapse_one_of in H.
  eapply collapse_docs_returned_nonempty; eassumption.
Qed.

Lemma sync_collapse_total (self : t) :
  forall g, fst (collapse_one_of self g) <> OutOfFuel.
Proof.
  intros g. unfold collapse_one_of.
  apply collapse_docs_not_out_of_fuel. apply call_chain_not_out_of_fuel.
Qed.

(** C3 as the code has it: a completed round puts one document in place of
    each group, so the list does not grow and keeps its length exactly when
    every group is a singleton; and [_collapse] ends, by returning or by
    raising, within max(1, len(docs)) rounds provided no completed round
    reachable from the input leaves the length unchanged with the list
    still over budget. *)
Theorem collapse_rounds_shrink_and_terminate_on_progress :
  forall (self : t) (token_max : option Z),
    (forall (w w' : list Document) (tr : list event),
        _collapse_round (length_func_of self) (collapse_one_of self)
          (_token_max self token_max) w = (Returned w', tr) ->
        exists groups,
          split_list_of_docs w (length_func_of self)
            (_token_max self token_max) = Ok groups /\
          length w' = length groups /\
          length groups <= length w /\
          (length groups = length w <->
           Forall (fun g => length g = 1) groups)) /\
    (forall docs : list Document,
        (forall (w w' : list Document) (tr : list event),
            reachable (length_func_of self) (collapse_one_of self)
              (_token_max self token_max) docs w ->
            over_budget (length_func_of self)
              (_token_max self token_max) w = true ->
            _collapse_round (length_func_of self) (collapse_one_of self)
              (_token_max self token_max) w = (Returned w', tr) ->
            length w' = length w ->
            over_budget (length_func_of self)
              (_token_max self token_max) w' = false) ->
        forall fuel : nat,
          1 <= fuel -> length docs <= fuel ->
          fst (_collapse fuel self docs token_max) <> OutOfFuel).
Proof.
  intros self tm. split.
  - intros w w' tr H.
    apply (_collapse_round_returned _ _ _ (sync_collapse_nonempty self)) in H.
    destruct H as (gs & H1 & H2 & _ & H3 & H4). exists gs. auto.
  - intros docs Hprog fuel H1 Hlen. unfold _collapse.
    apply bind_not_out_of_fuel.
    + apply (_collapse_while_terminates (length_func_of self)
               (collapse_one_of self) (_token_max self tm)
               (sync_collapse_nonempty self) (sync_collapse_total self)
               docs Hprog fuel docs); [constructor|assumption|assumption].
    + intros a t _. discriminate.
Qed.

Lemma char_count_app (a b : list Document) :
  char_count (a ++ b) = (char_count a + char_count b)%Z.
Proof. induction a as [|d a IH]; simpl; [reflexivity|]. rewrite IH. lia. Qed.

Lemma blank_collapse_content (g : list Document) (d : Document)
    (tr : list event) :
  collapse_one_of blank_reducer g = (Returned d, tr) ->
  page_content d = EmptyString.
Proof.
  unfold collapse_one_of, collapse_docs. intros H.
  apply bind_returned in H. destruct H as (s & t1 & t2 & Hs & H & _).
  apply bind_returned in H. destruct H as (m & t3 & t4 & _ & H & _).
  injection H as <- _. injection Hs as <- _. reflexivity.
Qed.

Lemma blank_for_cost (gs : list (list Document)) :
  forall acc w' tr,
    _collapse_for (collapse_one_of blank_reducer) gs acc = (Returned w', tr) ->
    char_count acc = 0%Z -> char_count w' = 0%Z.
Proof.
  induction gs as [|g gs IH]; intros acc w' tr H Hacc; cbn [_collapse_for] in H.
  - now injection H as <- _.
  - apply bind_returned in H. destruct H as (d & t1 & t2 & Hd & H & _).
    apply IH in H; [exact H|].
    rewrite char_count_app, Hacc. simpl.
    now rewrite (blank_collapse_content _ _ _ Hd).
Qed.

Lemma blank_round_cost (f : LengthFunc) (tm : Z) (w w' : list Document)
    (tr : list event) :
  _collapse_round f (collapse_one_of blank_reducer) tm w = (Returned w', tr) ->
  char_count w' = 0%Z.
Proof.
  unfold _collapse_round. intros H.
  apply bind_returned in H. destruct H as (gs & t1 & t2 & _ & H & _).
  now apply blank_for_cost in H.
Qed.

Lemma collapse_rounds_shrink_and_terminate_on_progress_witness :
  fst (_collapse 2 blank_reducer [doc_a; doc_b] (Some 7%Z)) <> OutOfFuel.
Proof.
  apply (proj2 (@collapse_rounds_shrink_and_terminate_on_progress
                  blank_reducer (Some 7%Z)) [doc_a; doc_b]).
  - intros w w' tr _ _ Hround _.
    unfold over_budget, length_func_of. simpl.
    now rewrite (blank_round_cost _ _ _ _ _ Hround).
  - lia.
  - simpl. lia.
Defined.

(** The echo chain gives back a lone document as it is, so the round on
    two five-character documents with budget 7 reproduces its input. *)
Lemma echo_round_fixed :
  _collapse_round (length_func_of echo_reducer) (collapse_one_of echo_reducer)
    7 [doc_a; doc_b]
  = (Returned [doc_a; doc_b], [CollapseCall [doc_a]; CollapseCall [doc_b]]).
Proof. reflexivity. Qed.

Lemma echo_spins (fuel : nat) :
  fst (_collapse_while fuel (length_func_of echo_reducer)
         (collapse_one_of echo_reducer) 7 [doc_a; doc_b]
         (length_func_of echo_reducer [doc_a; doc_b])) = OutOfFuel.
Proof.
  induction fuel as [|fuel IH].
  - reflexivity.
  - rewrite _collapse_while_step by reflexivity.
    rewrite echo_round_fixed. unfold bind.
    destruct (_collapse_while fuel _ _ _ _ _) as [r t]. exact IH.
Qed.

(** C3 as stated fails: two five-character documents, budget 7, and a
    collapse chain that returns its input text.  Neither document exceeds
    the budget, every round yields the same two singleton groups without
    any error, and the loop is still running after any number of rounds. *)
Lemma collapse_can_run_forever :
  ~ (forall (self : t) (token_max : option Z) (docs : list Document),
        (forall d, In d docs ->
           exists n,
             prompt_length (combine_documents_chain self) [d] = Some n /\
             (n <= _token_max self token_max)%Z) ->
        exists fuel : nat,
          fst (_collapse fuel self docs token_max) <> OutOfFuel).
Proof.
  intros H.
  destruct (H echo_reducer (Some 7%Z) [doc_a; doc_b]) as [fuel Hfuel].
  - intros d [<-|[<-|[]]]; exists 5%Z; split; try reflexivity; simpl; lia.
  - apply Hfuel. unfold _collapse.
    pose proof (echo_spins fuel) as Hs. unfold bind.
    change (prompt_length (combine_documents_chain echo_reducer))
      with (length_func_of echo_reducer).
    change (fun docs : list Document =>
              collapse_docs docs (_collapse_docs_func echo_reducer))
      with (collapse_one_of echo_reducer).
    change (_token_max echo_reducer (Some 7%Z)) with 7%Z.
    destruct (_collapse_while fuel _ _ _ _ _) as [r t].
    simpl in Hs. subst r. reflexivity.
Qed.

(** ** The declarative and the imperative loop *)

Lemma bind_ret_l (A B : Type) (a : A) (k : A -> M B) : bind (ret a) k = k a.
Proof. unfold bind, ret. now destruct (k a). Qed.

Lemma bind_ret_r (A : Type) (m : M A) : bind m (fun a => ret a) = m.
Proof.
  unfold bind, ret. destruct m as [[a|e|] t]; try reflexivity.
  now rewrite app_nil_r.
Qed.

Lemma bind_assoc (A B C : Type) (m : M A) (k : A -> M B) (h : B -> M C) :
  bind (bind m k) h = bind m (fun a => bind (k a) h).
Proof.
  unfold bind. destruct m as [[a|e|] t]; try reflexivity.
  destruct (k a) as [[b|e|] t2]; try reflexivity.
  destruct (h b) as [r t3]. now rewrite app_assoc.
Qed.

Lemma bind_ext (A B : Type) (m : M A) (k k' : A -> M B) :
  (forall a, k a = k' a) -> bind m k = bind m k'.
Proof.
  intros H. unfold bind. destruct m as [[a|e|] t]; try reflexivity.
  now rewrite H.
Qed.

Lemma split_loop_ext (f f' : LengthFunc) (tm : Z) :
  (forall ds, f ds = f' ds) ->
  forall docs st, split_loop f tm docs st = split_loop f' tm docs st.
Proof.
  intros H. induction docs as [|doc rest IH]; intros [nl sub];
    cbn [split_loop]; [reflexivity|].
  unfold split_step. rewrite H.
  destruct (py_gt _ _) as [[|]|e]; try reflexivity.
  - destruct (Nat.eqb _ _); [reflexivity|apply IH].
  - apply IH.
Qed.

Lemma split_list_of_docs_ext (f f' : LengthFunc) (tm : Z)
    (docs : list Document) :
  (forall ds, f ds = f' ds) ->
  split_list_of_docs docs f tm = split_list_of_docs docs f' tm.
Proof.
  intros H. unfold split_list_of_docs. now rewrite (split_loop_ext f f' tm H).
Qed.

Lemma sync_collapse_is_reduce_docs (self : t)
    (llm : list Document -> result string) :
  (forall ds, run (_collapse_chain self) ds = llm ds) ->
  forall g, collapse_docs g (_collapse_docs_func self) = reduce_docs llm g.
Proof.
  intros H g.
  unfold collapse_docs, reduce_docs, runnable_pipe, runnable_parallel,
    reduce_content, _collapse_docs_func, _dict_to_document, bind, ret, lift,
    call_chain.
  rewrite H. destruct (llm g); [|reflexivity].
  destruct (_combine_metadata g); reflexivity.
Qed.

Lemma async_collapse_is_reduce_docs (self : t)
    (llm : list Document -> result string) :
  (forall ds, arun (_collapse_chain self) ds = llm ds) ->
  forall g, acollapse_docs g (_acollapse_docs_func self) = reduce_docs llm g.
Proof.
  intros H g.
  unfold acollapse_docs, reduce_docs, runnable_pipe, runnable_parallel,
    reduce_content, _acollapse_docs_func, _dict_to_document, bind, ret, lift,
    call_chain.
  rewrite H. destruct (llm g); [|reflexivity].
  destruct (_combine_metadata g); reflexivity.
Qed.

Lemma _collapse_for_ext (c c' : list Document -> M Document) :
  (forall g, c g = c' g) ->
  forall gs acc, _collapse_for c gs acc = _collapse_for c' gs acc.
Proof.
  intros H. induction gs as [|g gs IH]; intros acc; cbn [_collapse_for].
  - reflexivity.
  - rewrite H. apply bind_ext. intros d. apply IH.
Qed.

Lemma _collapse_while_ext (f : LengthFunc)
    (c c' : list Document -> M Document) (tm : Z) :
  (forall g, c g = c' g) ->
  forall fuel w nt,
    _collapse_while fuel f c tm w nt = _collapse_while fuel f c' tm w nt.
Proof.
  intros H. induction fuel as [|fuel IH]; intros w nt;
    cbn [_collapse_while]; [reflexivity|].
  destruct (while_cond nt tm); [|reflexivity].
  unfold _collapse_round.
  rewrite !bind_assoc. apply bind_ext. intros gs.
  rewrite (_collapse_for_ext c c' H). apply bind_ext. intros w'. apply IH.
Qed.

Lemma Permutation_concat_lists (A : Type) (l l' : list (list A)) :
  Permutation l l' -> Permutation (concat l) (concat l').
Proof.
  induction 1 as [|x l l' _ IH|x y l|l l' l'' _ IH1 _ IH2]; simpl.
  - constructor.
  - now apply Permutation_app_head.
  - rewrite !app_assoc. apply Permutation_app_tail, Permutation_app_comm.
  - now transitivity (concat l').
Qed.

(** The for-loop of a round against the join of the same calls. *)
Lemma _collapse_for_join (r : list Document -> M Document) :
  forall gs acc,
    fst (_collapse_for r gs acc)
    = match join_outcomes (map fst (map r gs)) with
      | Returned ys => Returned (acc ++ ys)
      | Raised e => Raised e
      | OutOfFuel => OutOfFuel
      end.
Proof.
  induction gs as [|g gs IH]; intros acc;
    cbn [_collapse_for map join_outcomes].
  - cbn. now rewrite app_nil_r.
  - unfold bind. destruct (r g) as [[d|e|] t]; cbn [fst]; try reflexivity.
    specialize (IH (acc ++ [d])).
    destruct (_collapse_for r gs (acc ++ [d])) as [o t']. cbn [fst] in *.
    rewrite IH. destruct (join_outcomes (map fst (map r gs))); try reflexivity.
    now rewrite <- app_assoc.
Qed.

Lemma _collapse_for_calls (r : list Document -> M Document) :
  forall gs acc ys,
    join_outcomes (map fst (map r gs)) = Returned ys ->
    snd (_collapse_for r gs acc) = concat (map snd (map r gs)).
Proof.
  induction gs as [|g gs IH]; intros acc ys H;
    cbn [_collapse_for map join_outcomes concat] in *.
  - reflexivity.
  - unfold bind. destruct (r g) as [[d|e|] t]; cbn [fst snd] in *;
      try discriminate.
    destruct (join_outcomes (map fst (map r gs))) as [ys'|e|] eqn:Hj;
      try discriminate.
    specialize (IH (acc ++ [d]) ys' eq_refl).
    destruct (_collapse_for r gs (acc ++ [d])) as [o t']. cbn [snd] in *.
    now rewrite IH.
Qed.

Lemma join_outcomes_total (r : list Document -> M Document) :
  (forall g, fst (r g) <> OutOfFuel) ->
  forall gs, join_outcomes (map fst (map r gs)) <> OutOfFuel.
Proof.
  intros H. induction gs as [|g gs IH]; cbn [map join_outcomes];
    [discriminate|].
  specialize (H g). destruct (fst (r g)); try discriminate; [|contradiction].
  destruct (join_outcomes (map fst (map r gs))); try discriminate.
  contradiction.
Qed.

Lemma reduce_docs_calls (llm : list Document -> result string)
    (g : list Document) :
  snd (reduce_docs llm g) = [CollapseCall g] /\
  fst (reduce_docs llm g) <> OutOfFuel.
Proof.
  unfold reduce_docs, runnable_pipe, runnable_parallel, reduce_content,
    bind, ret, lift, call_chain.
  destruct (llm g); [destruct (_combine_metadata g)|]; simpl;
    split; try reflexivity; discriminate.
Qed.

Lemma reduce_docs_trace (llm : list Document -> result string)
    (gs : list (list Document)) :
  concat (map snd (map (reduce_docs llm) gs)) = map CollapseCall gs.
Proof.
  induction gs as [|g gs IH]; cbn [map concat]; [reflexivity|].
  rewrite IH. now rewrite (proj1 (reduce_docs_calls llm g)).
Qed.

Lemma bind_ret_pair (A B : Type) (m : M A) (h : A -> B) :
  bind m (fun x => ret (h x))
  = (match fst m with
     | Returned a => Returned (h a)
     | Raised e => Raised e
     | OutOfFuel => OutOfFuel
     end, snd m).
Proof.
  unfold bind, ret. destruct m as [[a|e|] t]; cbn [fst snd]; try reflexivity.
  now rewrite app_nil_r.
Qed.

Section Equivalence.
Variable sched : schedule.
Variable llm : list Document -> result string.
Variable format_documents : list Document -> string.
Variable _token_len_func : string -> Z.
Variable budget : Z.
Variable length_func : LengthFunc.
Variable collapse_one : list Document -> M Document.

Hypothesis fair_sched : fair sched.
Hypothesis same_cost :
  forall ds,
    length_func ds = Some (_docs_len ds _token_len_func format_documents).
Hypothesis same_collapse :
  forall g, collapse_one g = reduce_docs llm g.

(** One round of the for-loop and one [partition_and_reduce]: both raise,
    or both return the same new list; then the for-loop called the chain
    on the groups of the partition in group order and the pipeline made
    the same calls in the scheduler's order. *)
Lemma round_agrees (w : list Document) :
  (exists w1 gs tD,
      _collapse_round length_func collapse_one budget w
      = (Returned w1, map CollapseCall gs) /\
      partition_and_reduce sched llm format_documents _token_len_func budget w
      = (Returned w1, tD) /\
      split_list_of_docs w length_func budget = Ok gs /\
      Permutation (map CollapseCall gs) tD /\
      ((forall (A : Type) (l : list A), sched A l = l) ->
       map CollapseCall gs = tD)) \/
  (exists e e' tI tD,
      _collapse_round length_func collapse_one budget w = (Raised e, tI) /\
      partition_and_reduce sched llm format_documents _token_len_func budget w
      = (Raised e', tD)).
Proof.
  unfold _collapse_round, partition_and_reduce, runnable_pipe, partition_docs.
  rewrite <- (split_list_of_docs_ext length_func
                (fun ds => Some (_docs_len ds _token_len_func format_documents))
                budget w same_cost).
  destruct (split_list_of_docs w length_func budget) as [gs|e] eqn:Hs.
  - change (lift (Ok gs)) with (ret gs). rewrite !bind_ret_l.
    rewrite (_collapse_for_ext collapse_one (reduce_docs llm) same_collapse).
    pose proof (_collapse_for_join (reduce_docs llm) gs []) as Hfst.
    pose proof (_collapse_for_calls (reduce_docs llm) gs []) as Hsnd.
    unfold runnable_map.
    destruct (join_outcomes (map fst (map (reduce_docs llm) gs)))
      as [ys|e|] eqn:Hj.
    + left. exists ys, gs, (concat (sched _ (map snd (map (reduce_docs llm) gs)))).
      specialize (Hsnd ys eq_refl). rewrite reduce_docs_trace in Hsnd.
      destruct (_collapse_for (reduce_docs llm) gs []) as [o t].
      cbn [fst snd] in *. subst o t.
      split; [reflexivity|]. split; [reflexivity|]. split; [reflexivity|].
      split.
      * rewrite <- (reduce_docs_trace llm gs).
        apply Permutation_concat_lists. symmetry. apply fair_sched.
      * intros Hid. rewrite Hid. symmetry. apply reduce_docs_trace.
    + right. destruct (_collapse_for (reduce_docs llm) gs []) as [o t].
      cbn [fst] in Hfst. subst o. eauto 6.
    + exfalso. revert Hj. apply join_outcomes_total.
      intros g. apply reduce_docs_calls.
  - right. exists e, e, [], []. split; reflexivity.
Qed.

Lemma loops_agree (fuel : nat) :
  forall w,
    same_result eq
      (fst (_collapse_while fuel length_func collapse_one budget w
              (length_func w)))
      (fst (collapse_loop sched llm format_documents _token_len_func budget
              fuel w)) /\
    ((forall e,
         fst (collapse_loop sched llm format_documents _token_len_func budget
                fuel w) <> Raised e) ->
     rounds_permuted length_func budget
       (snd (_collapse_while fuel length_func collapse_one budget w
               (length_func w)))
       (snd (collapse_loop sched llm format_documents _token_len_func budget
               fuel w)) /\
     ((forall (A : Type) (l : list A), sched A l = l) ->
      snd (_collapse_while fuel length_func collapse_one budget w
             (length_func w))
      = snd (collapse_loop sched llm format_documents _token_len_func budget
               fuel w))).
Proof.
  assert (Hnil : rounds_permuted length_func budget [] []).
  { exists [], []. repeat split. constructor. }
  induction fuel as [|fuel IH]; intros w;
    cbn [_collapse_while collapse_loop]; rewrite same_cost;
    cbn [while_cond];
    destruct (Z.gtb (_docs_len w _token_len_func format_documents) budget);
    try (cbn; split; [reflexivity|intros _; split; [exact Hnil|reflexivity]]).
  unfold runnable_pipe.
  destruct (round_agrees w)
    as [(w1 & gs & tD & HI & HD & Hs & Hp & Hid)
       |(e & e' & tI & tD & HI & HD)].
  - rewrite HI, HD. unfold bind.
    destruct (IH w1) as [IH1 IH2].
    destruct (_collapse_while fuel length_func collapse_one budget w1
                (length_func w1)) as [oI sI].
    destruct (collapse_loop sched llm format_documents _token_len_func
                budget fuel w1) as [oD sD].
    cbn [fst snd] in *. split; [exact IH1|].
    intros Hnr. destruct (IH2 Hnr) as [(rs & rs' & -> & -> & HF) Heq].
    split.
    + exists (gs :: rs), (tD :: rs'). cbn [map concat].
      repeat split. constructor; [|exact HF].
      split; [|exact Hp].
      now rewrite (split_concat w length_func budget gs Hs).
    + intros Hid'. now rewrite (Hid Hid'), (Heq Hid').
  - rewrite HI, HD. cbn. split; [exact I|].
    intros Hnr. now contradiction (Hnr e').
Qed.
End Equivalence.


Lemma fair_last_to_first : fair last_to_first.
Proof. intros A l. symmetry. apply Permutation_rev. Qed.



(** * Further properties of the partitioner *)

Lemma adjacent_overflow_grow (f : LengthFunc) (tm : Z) (doc : Document) :
  forall nl sub,
    sub <> [] ->
    adjacent_overflow f tm (nl ++ [sub]) ->
    adjacent_overflow f tm (nl ++ [sub ++ [doc]]).
Proof.
  induction nl as [|g nl IH]; intros sub Hne H; [exact I|].
  destruct nl as [|g' nl].
  - cbn in H |- *. destruct H as [(d & rest & n & -> & Hf & Hn) _].
    split; [|exact I]. exists d, (rest ++ [doc]), n. auto.
  - change (overflows_into f tm g g' /\
            adjacent_overflow f tm ((g' :: nl) ++ [sub])) in H.
    change (overflows_into f tm g g' /\
            adjacent_overflow f tm ((g' :: nl) ++ [sub ++ [doc]])).
    destruct H as [H1 H2]. split; [exact H1|]. now apply IH.
Qed.

Lemma adjacent_overflow_close (f : LengthFunc) (tm : Z) :
  forall nl sub g',
    adjacent_overflow f tm (nl ++ [sub]) ->
    overflows_into f tm sub g' ->
    adjacent_overflow f tm ((nl ++ [sub]) ++ [g']).
Proof.
  induction nl as [|g nl IH]; intros sub g' H Ho.
  - cbn. auto.
  - destruct nl as [|g0 nl].
    + cbn in H |- *. destruct H as [H1 _]. auto.
    + change (overflows_into f tm g g0 /\
              adjacent_overflow f tm ((g0 :: nl) ++ [sub])) in H.
      change (overflows_into f tm g g0 /\
              adjacent_overflow f tm (((g0 :: nl) ++ [sub]) ++ [g'])).
      destruct H as [H1 H2]. split; [exact H1|]. now apply IH.
Qed.

Lemma split_loop_adjacent (f : LengthFunc) (tm : Z) docs :
  forall nl sub nl' sub',
    split_loop f tm docs (nl, sub) = Ok (nl', sub') ->
    (nl <> [] -> sub <> []) ->
    adjacent_overflow f tm (nl ++ [sub]) ->
    adjacent_overflow f tm (nl' ++ [sub']).
Proof.
  induction docs as [|doc rest IH]; intros nl sub nl' sub' H Hne Hadj;
    cbn [split_loop] in H.
  - now injection H as <- <-.
  - destruct (split_step f tm (nl, sub) doc) as [st'|e] eqn:Hs; [|discriminate].
    destruct st' as [nl1 sub1].
    apply split_step_cases in Hs.
    destruct Hs as [[E _]|[E [Hsub (n & Hn & Hgt)]]]; injection E as -> ->.
    + apply IH in H; [exact H| |].
      * intros _. now destruct sub.
      * destruct nl as [|g nl]; [exact I|].
        apply adjacent_overflow_grow; [|exact Hadj].
        apply Hne. discriminate.
    + apply IH in H; [exact H|discriminate|].
      apply adjacent_overflow_close; [exact Hadj|].
      exists doc, [], n. auto.
Qed.

(** X1: the partition is greedy.  Whenever the partitioner returns, each
    group but the last was closed exactly because it, extended by the first
    document of the next group, was measured over the budget. *)
Theorem split_list_of_docs_greedy :
  forall (docs : list Document) (length_func : LengthFunc) (token_max : Z)
         (groups : list (list Document)),
    split_list_of_docs docs length_func token_max = Ok groups ->
    adjacent_overflow length_func token_max groups.
Proof.
  intros docs f tm gs H. apply split_list_of_docs_inv in H.
  destruct H as (nl & sub & Hl & ->).
  apply (split_loop_adjacent f tm docs [] [] nl sub Hl).
  - intros E. now contradiction E.
  - exact I.
Qed.

Lemma split_list_of_docs_greedy_witness :
  adjacent_overflow (fun ds => Some (char_count ds)) 7
    [[doc_a]; [doc_b]; [doc_small; doc_small]; [doc_a]].
Proof.
  apply (split_list_of_docs_greedy
           [doc_a; doc_b; doc_small; doc_small; doc_a]
           (fun ds => Some (char_count ds)) 7%Z).
  reflexivity.
Defined.

(** X2: when every document on its own is within the budget, every group
    the partitioner returns is within the budget. *)
Theorem split_list_of_docs_respects_budget_of_small_docs :
  forall (docs : list Document) (length_func : LengthFunc) (token_max : Z)
         (groups : list (list Document)),
    docs <> [] ->
    (forall d, In d docs -> within_budget length_func token_max [d]) ->
    split_list_of_docs docs length_func token_max = Ok groups ->
    Forall (within_budget length_func token_max) groups.
Proof.
  intros docs f tm gs Hne Hd H.
  now apply (split_groups_within_budget docs f tm gs).
Qed.

Lemma split_list_of_docs_respects_budget_of_small_docs_witness :
  Forall (within_budget (fun ds => Some (char_count ds)) 7)
    [[doc_a]; [doc_b]; [doc_small; doc_small]; [doc_a]].
Proof.
  apply (split_list_of_docs_respects_budget_of_small_docs
           [doc_a; doc_b; doc_small; doc_small; doc_a]
           (fun ds => Some (char_count ds)) 7%Z).
  - discriminate.
  - intros d Hin. simpl in Hin.
    destruct Hin as [<-|[<-|[<-|[<-|[<-|[]]]]]];
      eexists; (split; [reflexivity|simpl; lia]).
  - reflexivity.
Defined.

Lemma split_loop_multi_within (f : LengthFunc) (tm : Z) docs :
  forall nl sub nl' sub',
    split_loop f tm docs (nl, sub) = Ok (nl', sub') ->
    Forall (fun g => length g = 1 \/ within_budget f tm g) nl ->
    (length sub <= 1 \/ within_budget f tm sub) ->
    Forall (fun g => length g = 1 \/ within_budget f tm g) nl' /\
    (length sub' <= 1 \/ within_budget f tm sub').
Proof.
  induction docs as [|doc rest IH]; intros nl sub nl' sub' H Hnl Hsub;
    cbn [split_loop] in H.
  - injection H as <- <-. auto.
  - destruct (split_step f tm (nl, sub) doc) as [st'|e] eqn:Hs; [|discriminate].
    destruct st' as [nl1 sub1].
    apply split_step_cases in Hs.
    destruct Hs as [[E (n & Hn & Hle)]|[E [Hne _]]]; injection E as -> ->.
    + apply IH in H; auto. right. exists n. auto.
    + apply IH in H; auto.
      * apply Forall_app. split; [assumption|]. constructor; [|constructor].
        destruct Hsub as [Hlen|Hw]; [|now right].
        left. destruct sub as [|x [|y sub]]; simpl in *;
          [contradiction|reflexivity|lia].
Qed.

(** X3: whatever the documents cost, a returned group that holds two or
    more documents was measured and is within the budget; a group that
    exceeds it holds at most one document. *)
Theorem split_list_of_docs_large_groups_within_budget :
  forall (docs : list Document) (length_func : LengthFunc) (token_max : Z)
         (groups : list (list Document)) (g : list Document),
    split_list_of_docs docs length_func token_max = Ok groups ->
    In g groups -> 2 <= length g ->
    within_budget length_func token_max g.
Proof.
  intros docs f tm gs g H Hin Hlen.
  apply split_list_of_docs_inv in H. destruct H as (nl & sub & Hl & ->).
  apply split_loop_multi_within in Hl; [|constructor|left; simpl; lia].
  destruct Hl as [H1 H2].
  apply in_app_or in Hin. destruct Hin as [Hin|[<-|[]]].
  - rewrite Forall_forall in H1. destruct (H1 g Hin) as [E|Hw]; [lia|exact Hw].
  - destruct H2 as [E|Hw]; [lia|exact Hw].
Qed.

Lemma split_list_of_docs_large_groups_within_budget_witness :
  within_budget (fun ds => Some (char_count ds)) 7 [doc_small; doc_small].
Proof.
  apply (split_list_of_docs_large_groups_within_budget
           [doc_a; doc_b; doc_small; doc_small; doc_a]
           (fun ds => Some (char_count ds)) 7%Z
           [[doc_a]; [doc_b]; [doc_small; doc_small]; [doc_a]]).
  - reflexivity.
  - simpl. auto.
  - simpl. lia.
Defined.

Lemma split_step_raise (f : LengthFunc) (tm : Z) nl sub doc e :
  split_step f tm (nl, sub) doc = Raise e ->
  (e = TypeError /\ f (sub ++ [doc]) = None) \/
  (e = ValueError single_document_msg /\ sub = [] /\
   exists n, f [doc] = Some n /\ (n > tm)%Z).
Proof.
  unfold split_step, py_gt.
  destruct (f (sub ++ [doc])) as [n|] eqn:Hf.
  - destruct (Z.gtb n tm) eqn:Hgt; [|discriminate].
    destruct (Nat.eqb (length (sub ++ [doc])) 1) eqn:Hlen; [|discriminate].
    intros H. injection H as <-. right.
    assert (Hs : sub = []).
    { destruct sub as [|x sub]; [reflexivity|].
      simpl in Hlen. rewrite length_app in Hlen. simpl in Hlen.
      apply Nat.eqb_eq in Hlen. lia. }
    subst sub. split; [reflexivity|]. split; [reflexivity|].
    exists n. split; [exact Hf|]. apply Z.gtb_gt in Hgt. lia.
  - intros H. injection H as <-. left. auto.
Qed.

Lemma split_step_state_nonempty (f : LengthFunc) (tm : Z) nl sub doc nl' sub' :
  split_step f tm (nl, sub) doc = Ok (nl', sub') -> sub' <> [].
Proof.
  intros H. apply split_step_cases in H.
  destruct H as [[E _]|[E _]]; injection E as -> ->;
    [now destruct sub|discriminate].
Qed.

Lemma split_loop_raise (f : LengthFunc) (tm : Z) e docs :
  forall nl sub,
    split_loop f tm docs (nl, sub) = Raise e ->
    (e = TypeError /\ exists g, g <> [] /\ f g = None) \/
    (e = ValueError single_document_msg /\ sub = [] /\
     exists d rest n, docs = d :: rest /\ f [d] = Some n /\ (n > tm)%Z).
Proof.
  induction docs as [|doc rest IH]; intros nl sub H; cbn [split_loop] in H.
  - discriminate.
  - destruct (split_step f tm (nl, sub) doc) as [[nl1 sub1]|e'] eqn:Hs.
    + apply split_step_state_nonempty in Hs.
      apply IH in H. destruct H as [H|(_ & E & _)]; [now left|contradiction].
    + injection H as ->. apply split_step_raise in Hs.
      destruct Hs as [[-> Hf]|(-> & -> & n & Hf & Hn)].
      * left. split; [reflexivity|]. exists (sub ++ [doc]).
        split; [now destruct sub|exact Hf].
      * right. split; [reflexivity|]. split; [reflexivity|].
        exists doc, rest, n. auto.
Qed.

Lemma split_raise_cases (docs : list Document) (f : LengthFunc) (tm : Z) e :
  split_list_of_docs docs f tm = Raise e ->
  (e = TypeError /\ exists g, g <> [] /\ f g = None) \/
  (e = ValueError single_document_msg /\
   exists d rest n, docs = d :: rest /\ f [d] = Some n /\ (n > tm)%Z).
Proof.
  unfold split_list_of_docs.
  destruct (split_loop f tm docs ([], [])) as [[nl sub]|e'] eqn:Hl;
    [discriminate|].
  intros H. injection H as ->. apply split_loop_raise in Hl.
  destruct Hl as [H|(H1 & _ & H2)]; auto.
Qed.

(** X4: with a length function that does not raise itself (it answers
    with a number or with [None]), the partitioner has two ways to fail and
    no other.  It raises [ValueError] with the fixed message only when the
    first document alone is measured over the budget, and [TypeError] only
    when the length function answered [None] for some non-empty group. *)
Theorem split_list_of_docs_failure_modes :
  forall (docs : list Document) (length_func : LengthFunc) (token_max : Z)
         (e : exn),
    split_list_of_docs docs length_func token_max = Raise e ->
    (e = ValueError single_document_msg /\
     exists d rest n,
       docs = d :: rest /\ length_func [d] = Some n /\ (n > token_max)%Z) \/
    (e = TypeError /\ exists g, g <> [] /\ length_func g = None).
Proof.
  intros docs f tm e H. apply split_raise_cases in H. tauto.
Qed.

Lemma split_list_of_docs_failure_modes_witness :
  split_list_of_docs [doc_small; doc_big] lone_length 5 = Raise TypeError /\
  exists g, g <> [] /\ lone_length g = None.
Proof.
  split; [reflexivity|].
  destruct (split_list_of_docs_failure_modes [doc_small; doc_big]
              lone_length 5%Z TypeError eq_refl) as [[E _]|[_ H]].
  - discriminate E.
  - exact H.
Defined.

(** X5: with a length function that always answers with a number, the
    partitioner returns groups exactly when the first document alone is not
    over the budget (in particular on the empty list); a later document,
    however large, never makes it raise. *)
Theorem split_list_of_docs_returns_iff_first_fits :
  forall (docs : list Document) (length_func : LengthFunc) (token_max : Z),
    (forall g, length_func g <> None) ->
    ((exists groups, split_list_of_docs docs length_func token_max = Ok groups)
     <->
     ~ (exists d rest n,
          docs = d :: rest /\ length_func [d] = Some n /\ (n > token_max)%Z)).
Proof.
  intros docs f tm Htot. split.
  - intros [gs Hgs] (d & rest & n & -> & Hf & Hn).
    rewrite (split_first_too_large d rest f tm n Hf Hn) in Hgs. discriminate.
  - intros Hfirst.
    destruct (split_list_of_docs docs f tm) as [gs|e] eqn:Hs; [eauto|].
    apply split_raise_cases in Hs.
    destruct Hs as [(_ & g & _ & Hg)|(_ & H)].
    + now apply Htot in Hg.
    + contradiction.
Qed.

Lemma split_list_of_docs_returns_iff_first_fits_witness :
  (exists groups,
      split_list_of_docs [doc_small; doc_big]
        (fun ds => Some (char_count ds)) 5 = Ok groups)
  <->
  ~ (exists d rest n,
       [doc_small; doc_big] = d :: rest /\
       (fun ds => Some (char_count ds)) [d] = Some n /\ (n > 5)%Z).
Proof.
  apply (split_list_of_docs_returns_iff_first_fits [doc_small; doc_big]
           (fun ds => Some (char_count ds)) 5%Z).
  intros g. discriminate.
Defined.

Lemma split_loop_extends (f : LengthFunc) (tm : Z) docs :
  forall nl sub nl' sub',
    split_loop f tm docs (nl, sub) = Ok (nl', sub') ->
    exists ext, nl' = nl ++ ext.
Proof.
  induction docs as [|doc rest IH]; intros nl sub nl' sub' H;
    cbn [split_loop] in H.
  - injection H as <- <-. exists []. now rewrite app_nil_r.
  - destruct (split_step f tm (nl, sub) doc) as [[nl1 sub1]|e] eqn:Hs;
      [|discriminate].
    apply IH in H. destruct H as [ext ->].
    apply split_step_cases in Hs.
    destruct Hs as [[E _]|[E _]]; injection E as -> ->.
    + eauto.
    + exists ([sub] ++ ext). now rewrite app_assoc.
Qed.

Lemma split_loop_one_group (f : LengthFunc) (tm : Z) docs :
  forall sub,
    (forall k, 1 <= k <= length docs ->
               within_budget f tm (sub ++ firstn k docs)) ->
    split_loop f tm docs ([], sub) = Ok ([], sub ++ docs).
Proof.
  induction docs as [|doc rest IH]; intros sub H; cbn [split_loop].
  - now rewrite app_nil_r.
  - destruct (H 1) as (n & Hn & Hle); [simpl; lia|].
    cbn [firstn] in Hn.
    unfold split_step, py_gt. rewrite Hn.
    replace (Z.gtb n tm) with false
      by (symmetry; rewrite Z.gtb_ltb; now apply Z.ltb_ge).
    rewrite IH; [now rewrite <- app_assoc|].
    intros k Hk. rewrite <- app_assoc. apply (H (S k)). simpl. lia.
Qed.

Lemma split_loop_one_group_inv (f : LengthFunc) (tm : Z) docs :
  forall sub sub',
    split_loop f tm docs ([], sub) = Ok ([], sub') ->
    forall k, 1 <= k <= length docs ->
              within_budget f tm (sub ++ firstn k docs).
Proof.
  induction docs as [|doc rest IH]; intros sub sub' H k Hk;
    [simpl in Hk; lia|].
  cbn [split_loop] in H.
  destruct (split_step f tm ([], sub) doc) as [[nl1 sub1]|e] eqn:Hs;
    [|discriminate].
  apply split_step_cases in Hs.
  destruct Hs as [[E Hw]|[E _]]; injection E as -> ->.
  - destruct k as [|k]; [lia|]. destruct k as [|k].
    + exact Hw.
    + change (firstn (S (S k)) (doc :: rest))
        with (doc :: firstn (S k) rest).
      replace (sub ++ doc :: firstn (S k) rest)
        with ((sub ++ [doc]) ++ firstn (S k) rest)
        by now rewrite <- app_assoc.
      apply (IH _ _ H). simpl in Hk. lia.
  - apply split_loop_extends in H. destruct H as [ext H].
    destruct ext; discriminate.
Qed.

(** X6: the partitioner returns the whole input as one group exactly when
    every non-empty prefix of the input is measured within the budget. *)
Theorem split_list_of_docs_one_group_iff_prefixes_fit :
  forall (docs : list Document) (length_func : LengthFunc) (token_max : Z),
    split_list_of_docs docs length_func token_max = Ok [docs] <->
    (forall k, 1 <= k <= length docs ->
               within_budget length_func token_max (firstn k docs)).
Proof.
  intros docs f tm. split.
  - intros H k Hk. apply split_list_of_docs_inv in H.
    destruct H as (nl & sub & Hl & E).
    destruct nl as [|g nl]; [|destruct nl; discriminate].
    apply (split_loop_one_group_inv f tm docs [] sub Hl k Hk).
  - intros H. unfold split_list_of_docs.
    now rewrite (split_loop_one_group f tm docs [] H).
Qed.

Lemma split_list_of_docs_one_group_iff_prefixes_fit_witness :
  split_list_of_docs [doc_small; doc_small]
    (fun ds => Some (char_count ds)) 7
  = Ok [[doc_small; doc_small]].
Proof.
  apply (proj2 (split_list_of_docs_one_group_iff_prefixes_fit
                  [doc_small; doc_small]
                  (fun ds => Some (char_count ds)) 7%Z)).
  intros k Hk. simpl in Hk.
  destruct k as [|[|[|k]]]; try lia;
    eexists; (split; [reflexivity|simpl; lia]).
Defined.

(** * Further properties of the metadata merge *)

Lemma append_assoc (a b c : string) :
  String.append (String.append a b) c = String.append a (String.append b c).
Proof. induction a as [|x a IH]; simpl; [reflexivity|]. now rewrite IH. Qed.

Lemma opt_join_assoc (a b c : option string) :
  opt_join (opt_join a b) c = opt_join a (opt_join b c).
Proof.
  destruct a as [a|], b as [b|], c as [c|]; simpl; try reflexivity.
  now rewrite !append_assoc.
Qed.

Lemma opt_join_none_l (b : option string) : opt_join None b = b.
Proof. now destruct b. Qed.

Lemma spec_merge_step_join (k : string) (acc : option string) (d : Document) :
  spec_merge_step k acc d
  = opt_join acc (option_map py_str (dict_get k (metadata d))).
Proof.
  unfold spec_merge_step. destruct (dict_get k (metadata d)); reflexivity.
Qed.

Lemma fold_merge_join (k : string) (g : list Document) :
  forall acc,
    fold_left (spec_merge_step k) g acc
    = opt_join acc (merged_from_scratch k g).
Proof.
  unfold merged_from_scratch.
  induction g as [|d g IH]; intros acc; cbn [fold_left]; [reflexivity|].
  rewrite IH, (IH (spec_merge_step k None d)), !spec_merge_step_join.
  now rewrite opt_join_none_l, opt_join_assoc.
Qed.

Lemma as_metadata_keys (m : dict string) :
  dict_keys (as_metadata m) = dict_keys m.
Proof.
  unfold dict_keys, as_metadata. rewrite map_map. reflexivity.
Qed.

Lemma as_metadata_wf (m : dict string) :
  dict_wf (as_metadata m) = dict_wf m.
Proof. unfold dict_wf. now rewrite as_metadata_keys. Qed.

Lemma stringify_as_metadata (m : dict string) :
  dict_wf m = true -> stringify_metadata (as_metadata m) = m.
Proof.
  intros H. rewrite stringify_metadata_map by now rewrite as_metadata_wf.
  unfold as_metadata. rewrite map_map.
  rewrite <- (map_id m) at 2. apply map_ext. now intros [k s].
Qed.

(** The merge of a non-empty list of dictionaries, key by key. *)
Lemma combine_metadata_get (docs : list Document) :
  docs <> [] ->
  Forall (fun d => dict_wf (metadata d) = true) docs ->
  exists m,
    _combine_metadata docs = Ok m /\ dict_wf m = true /\
    forall k, dict_get k m = merged_from_scratch k docs.
Proof.
  destruct docs as [|doc0 rest]; [contradiction|]. intros _ Hwf.
  inversion Hwf as [|? ? Hwf0 Hwfr]; subst.
  eexists. split; [reflexivity|]. split.
  - apply merge_docs_wf. unfold stringify_metadata.
    now apply stringify_fold_wf.
  - intros k. rewrite merge_docs_get by assumption.
    rewrite stringify_metadata_map by assumption.
    rewrite dict_get_map. unfold merged_from_scratch. cbn [fold_left].
    now rewrite spec_merge_step_join, opt_join_none_l.
Qed.

(** X7: a lone document whose metadata values are already strings, as
    those of every collapsed document are, keeps its metadata when it is
    collapsed again: the merge of the one-document group is the very
    dictionary it carries, and [collapse_docs] stores it unchanged. *)
Theorem recollapsing_a_lone_document_keeps_metadata :
  forall (m : dict string) (content : string)
         (combine_document_func : list Document -> M string)
         (s : string) (tr : list event),
    dict_wf m = true ->
    combine_document_func [mkDocument content (as_metadata m)]
    = (Returned s, tr) ->
    _combine_metadata [mkDocument content (as_metadata m)] = Ok m /\
    collapse_docs [mkDocument content (as_metadata m)] combine_document_func
    = (Returned (mkDocument s (as_metadata m)), tr) /\
    acollapse_docs [mkDocument content (as_metadata m)] combine_document_func
    = (Returned (mkDocument s (as_metadata m)), tr).
Proof.
  intros m content f s tr Hwf Hf.
  assert (Hc : _combine_metadata [mkDocument content (as_metadata m)] = Ok m).
  { cbn [_combine_metadata fold_left metadata].
    now rewrite stringify_as_metadata. }
  split; [exact Hc|]. now apply collapse_docs_returns.
Qed.

Lemma recollapsing_a_lone_document_keeps_metadata_witness :
  _combine_metadata [doc_merged]
  = Ok [("source", "a.txt, c.txt"); ("page", "1, 2, None")].
Proof.
  apply (recollapsing_a_lone_document_keeps_metadata
           [("source", "a.txt, c.txt"); ("page", "1, 2, None")] "summary"
           (fun _ => (Returned "again", [])) "again" []);
    reflexivity.
Defined.

Lemma collapsed_doc_step (k : string) (g : list Document) (d : Document)
    (acc : option string) :
  (exists m,
      _combine_metadata g = Ok m /\ metadata d = as_metadata m) ->
  Forall (fun x => dict_wf (metadata x) = true) g ->
  dict_wf (metadata d) = true /\
  spec_merge_step k acc d = fold_left (spec_merge_step k) g acc.
Proof.
  intros (m & Hm & Hd) Hwf.
  assert (Hne : g <> []) by (intros ->; discriminate Hm).
  destruct (combine_metadata_get g Hne Hwf) as (m0 & Hm0 & Hwf0 & Hget).
  rewrite Hm in Hm0. injection Hm0 as <-.
  split; [now rewrite Hd, as_metadata_wf|].
  rewrite spec_merge_step_join, fold_merge_join, Hd.
  unfold as_metadata. rewrite dict_get_map, <- Hget.
  now destruct (dict_get k m).
Qed.

Lemma regroup_fold (k : string) (gs : list (list Document))
    (ds : list Document) :
  Forall2 (fun g d =>
             Forall (fun x => dict_wf (metadata x) = true) g /\
             exists m,
               _combine_metadata g = Ok m /\ metadata d = as_metadata m)
          gs ds ->
  Forall (fun d => dict_wf (metadata d) = true) ds /\
  forall acc,
    fold_left (spec_merge_step k) ds acc
    = fold_left (spec_merge_step k) (concat gs) acc.
Proof.
  induction 1 as [|g d gs ds [Hwf Hm] _ [IH1 IH2]].
  - split; [constructor|reflexivity].
  - split.
    + constructor; [|exact IH1].
      apply (collapsed_doc_step k g d None Hm Hwf).
    + intros acc. cbn [fold_left concat]. rewrite fold_left_app, IH2.
      f_equal. apply (collapsed_doc_step k g d acc Hm Hwf).
Qed.

(** X8: the merge does not depend on the grouping.  When documents are
    collapsed group by group and the collapsed documents are merged again,
    every key ends with the value that merging all the original documents
    at once gives. *)
Theorem metadata_merge_is_independent_of_grouping :
  forall (groups : list (list Document)) (collapsed : list Document)
         (m2 : dict string),
    Forall2 (fun g d =>
               Forall (fun x => dict_wf (metadata x) = true) g /\
               exists m,
                 _combine_metadata g = Ok m /\ metadata d = as_metadata m)
            groups collapsed ->
    _combine_metadata collapsed = Ok m2 ->
    exists m1,
      _combine_metadata (concat groups) = Ok m1 /\
      forall k, dict_get k m2 = dict_get k m1.
Proof.
  intros gs ds m2 H2 Hm2.
  assert (Hds : ds <> []) by (intros ->; discriminate Hm2).
  assert (Hcat : concat gs <> []).
  { destruct H2 as [|g d gs ds [_ (m & Hm & _)] _]; [now contradiction Hds|].
    destruct g; [discriminate Hm|discriminate]. }
  assert (Hwf : Forall (fun x => dict_wf (metadata x) = true) (concat gs)).
  { clear Hm2 Hds Hcat. induction H2 as [|g d gs ds [Hg _] _ IH]; simpl.
    - constructor.
    - apply Forall_app. auto. }
  destruct (combine_metadata_get (concat gs) Hcat Hwf) as (m1 & Hm1 & _ & Hg1).
  exists m1. split; [exact Hm1|]. intros k.
  destruct (regroup_fold k gs ds H2) as [Hwfd Hfold].
  destruct (combine_metadata_get ds Hds Hwfd) as (m2' & Hm2' & _ & Hg2).
  rewrite Hm2 in Hm2'. injection Hm2' as <-.
  rewrite Hg1, Hg2. apply Hfold.
Qed.

Lemma metadata_merge_is_independent_of_grouping_witness :
  exists m1,
    _combine_metadata (concat [[doc_src1; doc_src2]; [doc_src3]]) = Ok m1 /\
    forall k,
      dict_get k [("source", "a.txt, c.txt"); ("page", "1, 2, None");
                  ("draft", "True")]
      = dict_get k m1.
Proof.
  apply (metadata_merge_is_independent_of_grouping
           [[doc_src1; doc_src2]; [doc_src3]] [doc_first_two; doc_third]
           [("source", "a.txt, c.txt"); ("page", "1, 2, None");
            ("draft", "True")]).
  - constructor; [|constructor; [|constructor]].
    + split; [repeat constructor|].
      eexists. split; reflexivity.
    + split; [repeat constructor|].
      eexists. split; reflexivity.
  - reflexivity.
Defined.

(** * Further properties of the collapser and the driver *)

Lemma collapse_docs_cases (g : list Document)
    (r : list Document -> result string) :
  collapse_docs g (fun docs => call_chain (CollapseCall docs) (r docs)) =
  match r g with
  | Raise e => (Raised e, [CollapseCall g])
  | Ok s =>
      match _combine_metadata g with
      | Ok m => (Returned (mkDocument s (as_metadata m)), [CollapseCall g])
      | Raise e => (Raised e, [CollapseCall g])
      end
  end.
Proof.
  unfold collapse_docs, bind, lift, ret, call_chain.
  destruct (r g); [|reflexivity]. destruct (_combine_metadata g); reflexivity.
Qed.

Lemma acollapse_docs_cases (g : list Document)
    (r : list Document -> result string) :
  acollapse_docs g (fun docs => call_chain (CollapseCall docs) (r docs)) =
  match r g with
  | Raise e => (Raised e, [CollapseCall g])
  | Ok s =>
      match _combine_metadata g with
      | Ok m => (Returned (mkDocument s (as_metadata m)), [CollapseCall g])
      | Raise e => (Raised e, [CollapseCall g])
      end
  end.
Proof.
  unfold acollapse_docs, bind, lift, ret, call_chain.
  destruct (r g); [|reflexivity]. destruct (_combine_metadata g); reflexivity.
Qed.

Lemma round_on_empty (f : LengthFunc) (tm : Z)
    (c : list Document -> M Document) :
  _collapse_round f c tm [] = _collapse_for c [[]] [].
Proof. unfold _collapse_round. apply bind_ret_l. Qed.

Lemma while_on_empty (fuel : nat) (f : LengthFunc) (tm n : Z)
    (c : list Document -> M Document) (e : exn) (tr : list event) :
  f [] = Some n -> (n > tm)%Z -> c [] = (Raised e, tr) ->
  _collapse_while (S fuel) f c tm [] (f []) = (Raised e, tr).
Proof.
  intros Hn Hgt Hc.
  rewrite _collapse_while_step by (rewrite Hn; now apply while_cond_over).
  rewrite round_on_empty. cbn [_collapse_for]. now rewrite Hc.
Qed.

(** X9: the empty input.  When the length function puts the empty list
    over the active budget, the first round makes one group, the empty one:
    the collapse chain is called once on no documents, and then the call
    fails, with the chain's exception if it raised and with [IndexError]
    from [docs[0]] otherwise; the final combine is not reached. *)
Theorem empty_input_over_budget_fails_after_one_call :
  forall (fuel : nat) (self : t) (token_max : option Z) (n : Z),
    prompt_length (combine_documents_chain self) [] = Some n ->
    (n > _token_max self token_max)%Z ->
    _collapse (S fuel) self [] token_max
    = (match run (_collapse_chain self) [] with
       | Ok _ => Raised IndexError
       | Raise e => Raised e
       end, [CollapseCall []]) /\
    _acollapse (S fuel) self [] token_max
    = (match arun (_collapse_chain self) [] with
       | Ok _ => Raised IndexError
       | Raise e => Raised e
       end, [CollapseCall []]) /\
    combine_docs (S fuel) self [] token_max
    = (match run (_collapse_chain self) [] with
       | Ok _ => Raised IndexError
       | Raise e => Raised e
       end, [CollapseCall []]) /\
    acombine_docs (S fuel) self [] token_max
    = (match arun (_collapse_chain self) [] with
       | Ok _ => Raised IndexError
       | Raise e => Raised e
       end, [CollapseCall []]).
Proof.
  intros fuel self tm n Hn Hgt.
  assert (Hs : exists e,
             (match run (_collapse_chain self) [] with
              | Ok _ => Raised IndexError
              | Raise e => Raised e
              end : outcome (list Document * dict PyValue)) = Raised e /\
             (match run (_collapse_chain self) [] with
              | Ok _ => Raised IndexError
              | Raise e => Raised e
              end : outcome (string * dict PyValue)) = Raised e /\
             collapse_docs [] (_collapse_docs_func self)
             = (Raised e, [CollapseCall []])).
  { unfold _collapse_docs_func. rewrite collapse_docs_cases.
    destruct (run (_collapse_chain self) []); eauto. }
  assert (Ha : exists e,
             (match arun (_collapse_chain self) [] with
              | Ok _ => Raised IndexError
              | Raise e => Raised e
              end : outcome (list Document * dict PyValue)) = Raised e /\
             (match arun (_collapse_chain self) [] with
              | Ok _ => Raised IndexError
              | Raise e => Raised e
              end : outcome (string * dict PyValue)) = Raised e /\
             acollapse_docs [] (_acollapse_docs_func self)
             = (Raised e, [CollapseCall []])).
  { unfold _acollapse_docs_func. rewrite acollapse_docs_cases.
    destruct (arun (_collapse_chain self) []); eauto. }
  destruct Hs as (e & -> & -> & Hc). destruct Ha as (e' & -> & -> & Hc').
  assert (H1 : _collapse (S fuel) self [] tm = (Raised e, [CollapseCall []])).
  { unfold _collapse.
    now rewrite (while_on_empty fuel _ _ n _ e [CollapseCall []] Hn Hgt Hc). }
  assert (H2 : _acollapse (S fuel) self [] tm
               = (Raised e', [CollapseCall []])).
  { unfold _acollapse.
    now rewrite (while_on_empty fuel _ _ n _ e' [CollapseCall []] Hn Hgt Hc'). }
  repeat split; try assumption.
  - unfold combine_docs. now rewrite H1.
  - unfold acombine_docs. now rewrite H2.
Qed.

Lemma empty_input_over_budget_fails_after_one_call_witness :
  combine_docs 1 wordy_reducer [] (Some 50%Z)
  = (Raised IndexError, [CollapseCall []]).
Proof.
  apply (empty_input_over_budget_fails_after_one_call 0 wordy_reducer
           (Some 50%Z) 100%Z).
  - reflexivity.
  - simpl. lia.
Defined.

Lemma collapse_one_returned (self : t) (g : list Document) (d : Document)
    (tr : list event) :
  collapse_one_of self g = (Returned d, tr) ->
  tr = [CollapseCall g] /\ collapsed_from (_collapse_chain self) g d.
Proof.
  unfold collapse_one_of, _collapse_docs_func. rewrite collapse_docs_cases.
  unfold collapsed_from.
  destruct (run (_collapse_chain self) g) as [s|e]; [|discriminate].
  destruct (_combine_metadata g) as [m|e]; [|discriminate].
  intros H. injection H as <- <-. split; [reflexivity|]. eauto.
Qed.

Lemma _collapse_for_spec (self : t) (gs : list (list Document)) :
  forall acc w' tr,
    _collapse_for (collapse_one_of self) gs acc = (Returned w', tr) ->
    exists new,
      w' = acc ++ new /\ tr = map CollapseCall gs /\
      Forall2 (collapsed_from (_collapse_chain self)) gs new.
Proof.
  induction gs as [|g gs IH]; intros acc w' tr H; cbn [_collapse_for] in H.
  - injection H as <- <-. exists []. rewrite app_nil_r. repeat split.
    constructor.
  - apply bind_returned in H. destruct H as (d & t1 & t2 & Hd & H & ->).
    apply collapse_one_returned in Hd. destruct Hd as [-> Hd].
    apply IH in H. destruct H as (new & -> & -> & HF).
    exists (d :: new). rewrite <- app_assoc. repeat split.
    now constructor.
Qed.

(** X10: what one completed round of [_collapse] is.  The groups of the
    partitioner, concatenated, are the working list; the collapse chain is
    called once per group, in group order and on nothing else; and the new
    working list holds, group by group, the document made of the chain's
    answer for that group and of that group's merged metadata. *)
Theorem completed_round_collapses_each_group_once :
  forall (self : t) (token_max : option Z) (w w' : list Document)
         (tr : list event),
    _collapse_round (length_func_of self) (collapse_one_of self)
      (_token_max self token_max) w = (Returned w', tr) ->
    exists groups,
      split_list_of_docs w (length_func_of self) (_token_max self token_max)
      = Ok groups /\
      concat groups = w /\
      tr = map CollapseCall groups /\
      Forall2 (collapsed_from (_collapse_chain self)) groups w'.
Proof.
  intros self tm w w' tr H. unfold _collapse_round in H.
  apply bind_returned in H. destruct H as (gs & t1 & t2 & Hs & H & ->).
  destruct (split_list_of_docs w (length_func_of self) (_token_max self tm))
    as [gs0|e] eqn:Hsplit; [|discriminate].
  injection Hs as -> <-.
  apply _collapse_for_spec in H. destruct H as (new & -> & -> & HF).
  exists gs. repeat split; try assumption.
  eapply split_concat; eassumption.
Qed.

Lemma completed_round_collapses_each_group_once_witness :
  exists groups,
    split_list_of_docs [doc_small; doc_a; doc_b] (length_func_of blank_reducer)
      (_token_max blank_reducer (Some 9%Z)) = Ok groups /\
    concat groups = [doc_small; doc_a; doc_b] /\
    [CollapseCall [doc_small; doc_a]; CollapseCall [doc_b]]
    = map CollapseCall groups /\
    Forall2 (collapsed_from (_collapse_chain blank_reducer)) groups
      [mkDocument EmptyString []; mkDocument EmptyString []].
Proof.
  apply (completed_round_collapses_each_group_once blank_reducer (Some 9%Z)
           [doc_small; doc_a; doc_b]
           [mkDocument EmptyString []; mkDocument EmptyString []]
           [CollapseCall [doc_small; doc_a]; CollapseCall [doc_b]]).
  reflexivity.
Defined.

Lemma split_prefix_nonempty (w : list Document) (f : LengthFunc) (tm : Z)
    (pre post : list (list Document)) (g : list Document) :
  split_list_of_docs w f tm = Ok (pre ++ g :: post) ->
  Forall (fun g' => g' <> []) pre.
Proof.
  intros H. destruct w as [|d w].
  - cbn in H. injection H as H.
    destruct pre as [|p pre]; [constructor|].
    injection H as _ H. destruct pre; discriminate.
  - apply split_groups_nonempty in H; [|discriminate].
    apply Forall_app in H. tauto.
Qed.

Lemma _collapse_for_aborts (r : list Document -> result string)
    (g : list Document) (post : list (list Document)) (e : exn) :
  r g = Raise e ->
  forall pre acc,
    Forall (fun g' => g' <> []) pre ->
    Forall (fun g' => exists s, r g' = Ok s) pre ->
    _collapse_for
      (fun docs =>
         collapse_docs docs
           (fun docs => call_chain (CollapseCall docs) (r docs)))
      (pre ++ g :: post) acc
    = (Raised e, map CollapseCall (pre ++ [g])).
Proof.
  intros Hg. induction pre as [|p pre IH]; intros acc Hne Hok.
  - rewrite !app_nil_l. cbn [_collapse_for].
    rewrite collapse_docs_cases, Hg. reflexivity.
  - rewrite <- !app_comm_cons. cbn [_collapse_for].
    inversion Hne as [|? ? Hp Hne']; subst.
    inversion Hok as [|? ? [s Hs] Hok']; subst.
    rewrite collapse_docs_cases, Hs.
    destruct p as [|d p]; [contradiction|]. cbn [_combine_metadata].
    unfold bind. rewrite IH by assumption. reflexivity.
Qed.

(** X11: a failing collapse call ends the reduction at once.  In the
    first round, once entered, when the collapse chain answers for the
    groups before some group and raises on that group, [_collapse] and
    [combine_docs]
    raise that very exception; the chain was called on the groups up to and
    including the failing one, in order, and on no later group, and the
    final combine was not called. *)
Theorem failing_collapse_call_aborts_the_round :
  forall (fuel : nat) (self : t) (token_max : option Z)
         (docs : list Document) (n : Z)
         (pre post : list (list Document)) (g : list Document) (e : exn),
    prompt_length (combine_documents_chain self) docs = Some n ->
    (n > _token_max self token_max)%Z ->
    split_list_of_docs docs (prompt_length (combine_documents_chain self))
      (_token_max self token_max) = Ok (pre ++ g :: post) ->
    Forall (fun g' => exists s, run (_collapse_chain self) g' = Ok s) pre ->
    run (_collapse_chain self) g = Raise e ->
    _collapse (S fuel) self docs token_max
    = (Raised e, map CollapseCall (pre ++ [g])) /\
    combine_docs (S fuel) self docs token_max
    = (Raised e, map CollapseCall (pre ++ [g])).
Proof.
  intros fuel self tm docs n pre post g e Hn Hgt Hsplit Hok Hg.
  assert (H1 : _collapse (S fuel) self docs tm
               = (Raised e, map CollapseCall (pre ++ [g]))).
  { unfold _collapse.
    rewrite _collapse_while_step by (rewrite Hn; now apply while_cond_over).
    unfold _collapse_round. rewrite Hsplit.
    change (lift (Ok (pre ++ g :: post))) with (ret (pre ++ g :: post)).
    rewrite bind_ret_l.
    unfold _collapse_docs_func.
    rewrite (_collapse_for_aborts (run (_collapse_chain self)) g post e Hg
               pre [] (split_prefix_nonempty _ _ _ _ _ _ Hsplit) Hok).
    reflexivity. }
  split; [exact H1|]. unfold combine_docs. now rewrite H1.
Qed.

Lemma failing_collapse_call_aborts_the_round_witness :
  combine_docs 1 picky_reducer [doc_small; doc_a; doc_big; doc_b] (Some 9%Z)
  = (Raised (ChainError "refused"),
     [CollapseCall [doc_small; doc_a]; CollapseCall [doc_big]]).
Proof.
  apply (failing_collapse_call_aborts_the_round 0 picky_reducer (Some 9%Z)
           [doc_small; doc_a; doc_big; doc_b] 23%Z
           [[doc_small; doc_a]] [[doc_b]] [doc_big] (ChainError "refused")).
  - reflexivity.
  - simpl. lia.
  - reflexivity.
  - constructor; [|constructor]. exists EmptyString. reflexivity.
  - reflexivity.
Defined.

Lemma _collapse_while_returned (f : LengthFunc)
    (c : list Document -> M Document) (tm : Z) (fuel : nat) :
  forall w w' tr,
    _collapse_while fuel f c tm w (f w) = (Returned w', tr) ->
    while_cond (f w') tm = false.
Proof.
  induction fuel as [|fuel IH]; intros w w' tr H;
    destruct (while_cond (f w) tm) eqn:Hc.
  - cbn [_collapse_while] in H. rewrite Hc in H. discriminate.
  - rewrite _collapse_while_done in H by exact Hc. now injection H as <- _.
  - rewrite _collapse_while_step in H by exact Hc.
    apply bind_returned in H. destruct H as (w1 & t1 & t2 & _ & H & _).
    eapply IH; eassumption.
  - rewrite _collapse_while_done in H by exact Hc. now injection H as <- _.
Qed.

Lemma while_cond_false (nt : option Z) (tm : Z) :
  while_cond nt tm = false -> forall n, nt = Some n -> (n <= tm)%Z.
Proof.
  intros H n ->. unfold while_cond in H. rewrite Z.gtb_ltb in H.
  now apply Z.ltb_ge in H.
Qed.

(** X12: what [_collapse] and [_acollapse] return.  When either returns,
    the auxiliary dictionary is empty and the returned documents are no
    longer over the active budget: either the length function has no answer
    for them or its answer is at most the budget. *)
Theorem collapse_returns_documents_within_budget :
  forall (fuel : nat) (self : t) (docs : list Document)
         (token_max : option Z) (result_docs : list Document)
         (extra : dict PyValue) (tr : list event),
    _collapse fuel self docs token_max = (Returned (result_docs, extra), tr) \/
    _acollapse fuel self docs token_max = (Returned (result_docs, extra), tr) ->
    extra = [] /\
    forall n,
      prompt_length (combine_documents_chain self) result_docs = Some n ->
      (n <= _token_max self token_max)%Z.
Proof.
  intros fuel self docs tm w extra tr [H|H];
    [unfold _collapse in H|unfold _acollapse in H];
    apply bind_returned in H; destruct H as (w1 & t1 & t2 & Hw & H & _);
    injection H as <- <- _; (split; [reflexivity|]);
    apply while_cond_false;
    apply _collapse_while_returned in Hw; exact Hw.
Qed.

Lemma collapse_returns_documents_within_budget_witness :
  @nil (string * PyValue) = [] /\
  forall n,
    prompt_length (combine_documents_chain blank_reducer)
      [mkDocument EmptyString []; mkDocument EmptyString []] = Some n ->
    (n <= _token_max blank_reducer (Some 5%Z))%Z.
Proof.
  apply (collapse_returns_documents_within_budget 1 blank_reducer
           [doc_small; doc_big] (Some 5%Z)
           [mkDocument EmptyString []; mkDocument EmptyString []] []
           [CollapseCall [doc_small]; CollapseCall [doc_big]]).
  left. reflexivity.
Defined.

(** X13: what the declarative chain returns.  When [collapse_loop]
    returns documents, their measured length is at most [token_max],
    whatever the order in which [.map()] made the calls. *)
Theorem collapse_loop_returns_documents_within_budget :
  forall (sched : schedule) (llm : list Document -> result string)
         (format_documents : list Document -> string)
         (_token_len_func : string -> Z) (token_max : Z)
         (fuel : nat) (docs result_docs : list Document) (tr : list event),
    collapse_loop sched llm format_documents _token_len_func token_max
      fuel docs
    = (Returned result_docs, tr) ->
    (_docs_len result_docs _token_len_func format_documents <= token_max)%Z.
Proof.
  intros sched llm fd tl tm fuel.
  induction fuel as [|fuel IH]; intros docs w tr H;
    cbn [collapse_loop] in H;
    destruct (Z.gtb (_docs_len docs tl fd) tm) eqn:Hc.
  - discriminate.
  - injection H as <- _. rewrite Z.gtb_ltb in Hc. now apply Z.ltb_ge in Hc.
  - unfold runnable_pipe at 1 in H. apply bind_returned in H.
    destruct H as (w1 & t1 & t2 & _ & H & _). eapply IH; eassumption.
  - injection H as <- _. rewrite Z.gtb_ltb in Hc. now apply Z.ltb_ge in Hc.
Qed.

Lemma collapse_loop_returns_documents_within_budget_witness :
  (_docs_len [mkDocument EmptyString []; mkDocument EmptyString []]
     text_length join_contents <= 5)%Z.
Proof.
  apply (collapse_loop_returns_documents_within_budget last_to_first
           (fun _ => Ok EmptyString) join_contents text_length 5%Z 1
           [doc_small; doc_big]
           [mkDocument EmptyString []; mkDocument EmptyString []]
           [CollapseCall [doc_big]; CollapseCall [doc_small]]).
  reflexivity.
Defined.

Lemma acollapse_docs_returned_nonempty (g : list Document)
    (f : list Document -> M string) (d : Document) (tr : list event) :
  acollapse_docs g f = (Returned d, tr) -> g <> [].
Proof.
  intros H ->. unfold acollapse_docs in H.
  apply bind_returned in H. destruct H as (s & t1 & t2 & _ & H & _).
  apply bind_returned in H. destruct H as (c & t3 & t4 & H & _).
  discriminate H.
Qed.

Lemma _collapse_while_length (f : LengthFunc)
    (c : list Document -> M Document) (tm : Z) :
  (forall g d tr, c g = (Returned d, tr) -> g <> []) ->
  forall fuel w w' tr,
    _collapse_while fuel f c tm w (f w) = (Returned w', tr) ->
    length w' <= length w /\ (w <> [] -> w' <> []).
Proof.
  intros Hc. induction fuel as [|fuel IH]; intros w w' tr H;
    destruct (while_cond (f w) tm) eqn:Hcond.
  - cbn [_collapse_while] in H. rewrite Hcond in H. discriminate.
  - rewrite _collapse_while_done in H by exact Hcond.
    injection H as <- _. auto.
  - rewrite _collapse_while_step in H by exact Hcond.
    apply bind_returned in H. destruct H as (w1 & t1 & t2 & Hr & H & _).
    apply (_collapse_round_returned f c tm Hc) in Hr.
    destruct Hr as (gs & _ & Hlen & Hpos & Hle & _).
    apply IH in H. destruct H as [H1 H2]. split; [lia|].
    intros _. apply H2. destruct w1; [simpl in Hlen; lia|discriminate].
  - rewrite _collapse_while_done in H by exact Hcond.
    injection H as <- _. auto.
Qed.

(** X14: collapsing never adds documents.  When [_collapse] or
    [_acollapse] returns, the returned list is no longer than the input
    list, and it is empty only if the input list was. *)
Theorem collapse_never_adds_documents :
  forall (fuel : nat) (self : t) (docs : list Document)
         (token_max : option Z) (result_docs : list Document)
         (extra : dict PyValue) (tr : list event),
    _collapse fuel self docs token_max = (Returned (result_docs, extra), tr) \/
    _acollapse fuel self docs token_max = (Returned (result_docs, extra), tr) ->
    length result_docs <= length docs /\ (docs <> [] -> result_docs <> []).
Proof.
  intros fuel self docs tm w extra tr [H|H];
    [unfold _collapse in H|unfold _acollapse in H];
    apply bind_returned in H; destruct H as (w1 & t1 & t2 & Hw & H & _);
    injection H as <- _ _.
  - apply _collapse_while_length in Hw; [exact Hw|].
    intros g d t. apply collapse_docs_returned_nonempty.
  - apply _collapse_while_length in Hw; [exact Hw|].
    intros g d t. apply acollapse_docs_returned_nonempty.
Qed.

Lemma collapse_never_adds_documents_witness :
  length [mkDocument EmptyString []; mkDocument EmptyString []]
  <= length [doc_small; doc_a; doc_b] /\
  ([doc_small; doc_a; doc_b] <> [] ->
   [mkDocument EmptyString []; mkDocument EmptyString []] <> []).
Proof.
  apply (collapse_never_adds_documents 1 blank_reducer
           [doc_small; doc_a; doc_b] (Some 9%Z)
           [mkDocument EmptyString []; mkDocument EmptyString []] []
           [CollapseCall [doc_small; doc_a]; CollapseCall [doc_b]]).
  left. reflexivity.
Defined.

Lemma opt_join_joined (o : option PyValue) (vs : list string) :
  opt_join (option_map py_str o) (joined vs)
  = joined (match o with Some v => [py_str v] | None => [] end ++ vs).
Proof.
  destruct o as [v|]; [|apply opt_join_none_l].
  destruct vs as [|y ys]; reflexivity.
Qed.

Lemma merged_from_scratch_joined (k : string) (docs : list Document) :
  merged_from_scratch k docs = joined (metadata_values k docs).
Proof.
  induction docs as [|d docs IH]; [reflexivity|].
  unfold merged_from_scratch. cbn [fold_left metadata_values flat_map].
  rewrite fold_merge_join, IH, spec_merge_step_join, opt_join_none_l.
  apply opt_join_joined.
Qed.

(** X16: the merged metadata in closed form.  For a non-empty group of
    documents with well-formed metadata, a key is in the merged metadata
    exactly when some document of the group has it, and its value is then
    the stringified values of the documents that have it, in document
    order, joined by [", "]. *)
Theorem merged_metadata_joins_values_with_comma :
  forall (docs : list Document) (m : dict string) (k : string),
    Forall (fun d => dict_wf (metadata d) = true) docs ->
    _combine_metadata docs = Ok m ->
    (dict_get k m = None <-> metadata_values k docs = []) /\
    (metadata_values k docs <> [] ->
     dict_get k m = Some (String.concat ", " (metadata_values k docs))) /\
    (metadata_values k docs <> [] <->
     exists d, In d docs /\ dict_get k (metadata d) <> None).
Proof.
  intros docs m k Hwf Hm.
  assert (Hne : docs <> []) by (intros ->; discriminate Hm).
  destruct (combine_metadata_get docs Hne Hwf) as (m0 & Hm0 & _ & Hget).
  rewrite Hm in Hm0. injection Hm0 as <-.
  rewrite Hget, merged_from_scratch_joined.
  split; [|split].
  - destruct (metadata_values k docs); simpl; split; intros H;
      try reflexivity; discriminate.
  - destruct (metadata_values k docs); [contradiction|reflexivity].
  - unfold metadata_values. split.
    + intros H.
      destruct (flat_map _ docs) as [|s l] eqn:E; [contradiction|].
      assert (Hin : In s (flat_map
                 (fun d => match dict_get k (metadata d) with
                           | Some v => [py_str v]
                           | None => []
                           end) docs)) by (rewrite E; now left).
      apply in_flat_map in Hin. destruct Hin as (d & Hd & Hs).
      exists d. split; [exact Hd|].
      destruct (dict_get k (metadata d)); [discriminate|contradiction].
    + intros (d & Hd & Hk) E.
      destruct (dict_get k (metadata d)) as [v|] eqn:Hv; [|contradiction].
      assert (Hin : In (py_str v) (flat_map
                 (fun d => match dict_get k (metadata d) with
                           | Some v => [py_str v]
                           | None => []
                           end) docs)).
      { apply in_flat_map. exists d. split; [exact Hd|].
        rewrite Hv. now left. }
      rewrite E in Hin. contradiction.
Qed.

Lemma merged_metadata_joins_values_with_comma_witness :
  dict_get "page"
    [("source", "a.txt, c.txt"); ("page", "1, 2, None"); ("draft", "True")]
  = Some (String.concat ", "
            (metadata_values "page" [doc_src1; doc_src2; doc_src3])).
Proof.
  apply (merged_metadata_joins_values_with_comma
           [doc_src1; doc_src2; doc_src3]
           [("source", "a.txt, c.txt"); ("page", "1, 2, None");
            ("draft", "True")] "page").
  - repeat constructor.
  - reflexivity.
  - discriminate.
Defined.
